(** * Metadata repository (src/platform/metadata/repository.py)

    A shallow embedding of the [Artifact]/[DataSource] and
    [Event]/[DataSourceEvent] classes.  Every method of these classes is
    a short straight-line programme over the data-access object
    ([PGDao]): it assembles arguments and issues calls.  The methods are
    embedded as programmes over the data-access interface ([prog]); a
    programme is run against a handler that stands for the data-access
    object, and the run records the calls that were issued, the final
    state of the back end and either the returned value or the raised
    exception. *)

From stdpp Require Import base option list strings gmap fin_maps.
From Stdlib Require Import ZArith.

Local Open Scope string_scope.
Local Open Scope list_scope.

(** ** Python values that travel through the repository *)

(** A [datetime] is kept as an integer time stamp. *)
Inductive value : Type :=
| VNone
| VBool (b : bool)
| VInt (n : Z)
| VStr (s : string)
| VTime (t : Z)
| VList (l : list string).

#[global] Instance value_eq_dec : EqDecision value.
Proof. solve_decision. Defined.

(** An optional [str] parameter whose default is [None]. *)
Definition opt_str (o : option string) : value :=
  match o with
  | Some s => VStr s
  | None => VNone
  end.

Definition opt_int (o : option Z) : value :=
  match o with
  | Some n => VInt n
  | None => VNone
  end.

(** [**kwargs]: a dict, iterated in insertion order. *)
Definition kwargs : Type := list (string * value).

(** A row of a table, column name to value; the tabular result of a read
    is the list of its rows. *)
Abbreviation row := (gmap string value).

(** ** The collaborators from [..database] and [..config] *)

(** Modelled from the spec: [DBCredentials] is imported from [..config],
    which is not among the sources; the spec (section 6) gives its fields
    as database, user, host, port and password. *)
Record DBCredentials : Type := {
  database : string;
  user : string;
  host : string;
  port : string;
  password : string
}.

(** Modelled from the spec: [PGConnectionFactory] and [PGDao] are imported
    from [..database], which is not among the sources.  An instance is
    represented by the arguments its constructor was called with; [None]
    is an argument that was not passed. *)
Record PGConnectionFactory : Type := {
  factory_credentials : option DBCredentials
}.

Record PGDao : Type := {
  dao_credentials : option DBCredentials;
  dao_autocommit : option bool
}.

(** Modelled from the spec: the interface of [PGDao], whose class is not
    among the sources.  The operations are those of section 6, with the
    keyword arguments the methods below pass at their call sites, and
    [Rollback] is the explicit rollback that sections 7 and 9 speak of.
    An optional keyword that the caller leaves out is [None]. *)
Inductive dao_call : Type :=
| Connect
| Begin
| Commit
| Rollback
| Close
| Create (table : string) (columns : list string) (values : list value)
         (schema : option string)
| Read (table : string) (where_key : option string)
       (where_value : option value) (schema : option string)
| Update (table : string) (column : string) (v : value)
         (where_key : string) (where_value : value) (schema : option string)
| Delete (table : string) (where_key : string) (where_value : value)
         (schema : option string).

#[global] Instance dao_call_eq_dec : EqDecision dao_call.
Proof. solve_decision. Defined.

(** Modelled from the spec: what a call on [PGDao] hands back, nothing
    or tabular rows (section 6). *)
Inductive reply : Type :=
| RNone
| RFrame (rows : list row).

(** Modelled from the spec: the errors raised by the storage layer
    (section 7), a constraint violation or a failed operation. *)
Inductive exn : Type :=
| IntegrityError (msg : string)
| OperationalError (msg : string).

Inductive result (A : Type) : Type :=
| Ok (a : A)
| Raise (e : exn).

Arguments Ok {A} a.
Arguments Raise {A} e.

(** ** Programmes over the data-access object *)

Inductive prog (A : Type) : Type :=
| Ret (a : A)
| Call (c : dao_call) (k : reply -> prog A).

Arguments Ret {A} a.
Arguments Call {A} c k.

Fixpoint prog_bind {A B : Type} (f : A -> prog B) (p : prog A) : prog B :=
  match p with
  | Ret a => f a
  | Call c k => Call c (fun r => prog_bind f (k r))
  end.

#[global] Instance prog_mret : MRet prog := fun _ a => Ret a.
#[global] Instance prog_mbind : MBind prog := fun _ _ f p => prog_bind f p.

(** One call on [self._dao]. *)
Definition dao (c : dao_call) : prog reply := Call c Ret.

(** The calls a programme can issue, whatever the replies. *)
Inductive issues {A : Type} : prog A -> dao_call -> Prop :=
| issues_head c k : issues (Call c k) c
| issues_tail c k r c' : issues (k r) c' -> issues (Call c k) c'.

(** A handler is the behaviour of a data-access object over a back-end
    state [W]: a call either returns or raises. *)
Definition handler (W : Type) : Type := dao_call -> W -> W * result reply.

(** Running a programme: calls are made in order; the first one that
    raises ends the run and its exception is the outcome.  The trace
    lists the calls made, the raising one included. *)
Fixpoint interp {W A : Type} (h : handler W) (p : prog A) (w : W)
  : W * list dao_call * result A :=
  match p with
  | Ret a => (w, [], Ok a)
  | Call c k =>
      match h c w with
      | (w', Raise e) => (w', [c], Raise e)
      | (w', Ok r) =>
          let '(w'', tr, res) := interp h (k r) w' in (w'', c :: tr, res)
      end
  end.

Definition final_state {W A : Type} (o : W * list dao_call * result A) : W :=
  o.1.1.
Definition trace {W A : Type} (o : W * list dao_call * result A)
  : list dao_call := o.1.2.
Definition outcome {W A : Type} (o : W * list dao_call * result A)
  : result A := o.2.




(** ** ARTIFACTS *)

(** A constructor argument: credentials or a plain value. *)
Inductive pyarg : Type :=
| ACred (c : DBCredentials)
| AVal (v : value).

Module Artifact.

Record t : Type := {
  _connection_factory : PGConnectionFactory;
  _dao : PGDao;
  _schema : string
}.

(** [def __init__(self, *args, **kwargs)]: both collaborators are
    built by calls without arguments. *)
Definition __init__ (args : list pyarg) (kw : list (string * pyarg)) : t :=
  {| _connection_factory := {| factory_credentials := None |};
     _dao := {| dao_credentials := None; dao_autocommit := None |};
     _schema := "public" |}.

End Artifact.

Module DataSource.

Record t : Type := {
  base : Artifact.t;
  _table : string
}.

Definition _schema (self : t) : string := Artifact._schema (base self).
Definition _dao (self : t) : PGDao := Artifact._dao (base self).
Definition _connection_factory (self : t) : PGConnectionFactory :=
  Artifact._connection_factory (base self).

(** [def __init__(self, credentials, autocommit=False)]. *)
Definition __init__ (credentials : DBCredentials)
    (autocommit : option bool) : t :=
  let autocommit := default false autocommit in
  {| base := Artifact.__init__ []
               [("credentials", ACred credentials);
                ("autocommit", AVal (VBool autocommit))];
     _table := "datasource" |}.

(** The named parameters of [create]. *)
Record create_args : Type := {
  name : string;
  source_type : string;
  version : Z;
  webpage : string;
  link : string;
  link_type : string;
  frequency : Z;
  lifecycle : Z;
  creator : Z;
  has_changed : bool;
  source_updated : Z;
  created : Z;
  created_by : string;
  title : option string;
  description : option string;
  coverage : option string;
  maintainer : option string
}.

Definition fixed_columns : list string :=
  ["name"; "source_type"; "version"; "webpage";
   "link"; "link_type"; "frequency"; "lifecycle"; "creator";
   "has_changed"; "source_updated"; "created"; "created_by";
   "title"; "description"; "coverage"; "maintainer"].

Definition fixed_values (a : create_args) : list value :=
  [VStr (name a); VStr (source_type a); VInt (version a); VStr (webpage a);
   VStr (link a); VStr (link_type a); VInt (frequency a);
   VInt (lifecycle a); VInt (creator a);
   VBool (has_changed a); VTime (source_updated a); VTime (created a);
   VStr (created_by a);
   opt_str (title a); opt_str (description a); opt_str (coverage a);
   opt_str (maintainer a)].

(** [for k, v in kwargs.items(): columns.append(k); values.append(v)],
    on the pair of lists. *)
Fixpoint append_items (kw : kwargs) (cv : list string * list value)
  : list string * list value :=
  match kw with
  | [] => cv
  | (k, v) :: kw' => append_items kw' (cv.1 ++ [k], cv.2 ++ [v])
  end.

Definition create (self : t) (a : create_args) (kw : kwargs) : prog unit :=
  let columns := fixed_columns in
  let values := fixed_values a in
  let '(columns, values) := append_items kw (columns, values) in
  _ ← dao (Create (_table self) columns values (Some (_schema self)));
  mret tt.

Definition read (self : t) (name : option string) : prog reply :=
  match name with
  | Some n =>
      result ← dao (Read (_table self) (Some "name") (Some (VStr n))
                         (Some (_schema self)));
      mret result
  | None =>
      result ← dao (Read (_table self) None None (Some (_schema self)));
      mret result
  end.

Definition update (self : t) (name : string) (version : Z)
    (uris : list string) (has_changed : bool) (source_updated : Z)
    (updated : Z) (updated_by : string) : prog unit :=
  _ ← dao Connect;
  _ ← dao Begin;
  _ ← dao (Update (_table self) "uris" (VList uris)
                  "name" (VStr name) (Some (_schema self)));
  _ ← dao (Update (_table self) "has_changed" (VBool has_changed)
                  "name" (VStr name) (Some (_schema self)));
  _ ← dao (Update (_table self) "source_updated" (VTime source_updated)
                  "name" (VStr name) (Some (_schema self)));
  _ ← dao (Update (_table self) "updated" (VTime updated)
                  "name" (VStr name) (Some (_schema self)));
  _ ← dao (Update (_table self) "updated_by" (VStr updated_by)
                  "name" (VStr name) (Some (_schema self)));
  _ ← dao Commit;
  _ ← dao Close;
  mret tt.

Definition delete (self : t) (name : string) : prog unit :=
  _ ← dao (Delete (_table self) "name" (VStr name) (Some (_schema self)));
  mret tt.

End DataSource.

(** ** EVENTS *)

Module Event.

Record t : Type := {
  _credentials : DBCredentials;
  _dao : PGDao;
  _schema : string
}.

(** [def __init__(self, credentials, autocommit=True, *args, **kwargs)]. *)
Definition __init__ (credentials : DBCredentials)
    (autocommit : option bool)
    (args : list pyarg) (kw : list (string * pyarg)) : t :=
  let autocommit := default true autocommit in
  {| _credentials := credentials;
     _dao := {| dao_credentials := Some credentials;
                dao_autocommit := Some autocommit |};
     _schema := "public" |}.

End Event.

Module DataSourceEvent.

Record t : Type := {
  base : Event.t;
  _table : string
}.

Definition _schema (self : t) : string := Event._schema (base self).
Definition _dao (self : t) : PGDao := Event._dao (base self).

Definition __init__ (credentials : DBCredentials) : t :=
  {| base := Event.__init__ credentials None [] [];
     _table := "datasourceevent" |}.

Definition create (self : t) (kw : kwargs) : prog unit :=
  let columns := map fst kw in
  let values := map snd kw in
  _ ← dao (Create (_table self) columns values (Some (_schema self)));
  mret tt.

(** Neither call passes [schema]. *)
Definition read (self : t) (name : option string) : prog reply :=
  match name with
  | None =>
      df ← dao (Read (_table self) None None None);
      mret df
  | Some n =>
      df ← dao (Read (_table self) (Some "name") (Some (VStr n)) None);
      mret df
  end.

(** [def delete(self, id: int = None)], also without [schema]; the
    method has no [return], so it hands back [None]. *)
Definition delete (self : t) (id : option Z) : prog unit :=
  _ ← dao (Delete (_table self) "id" (opt_int id) None);
  mret tt.

End DataSourceEvent.

(** ** The storage back end *)

(** Modelled from the spec: the state behind [PGDao].  The tables are
    keyed by (schema, table); a table that was never written has no rows.
    [snapshot] holds the tables as they were when the open transaction
    began, and is [None] when no transaction is open. *)
Record pg_state : Type := {
  tables : gmap (string * string) (list row);
  connected : bool;
  snapshot : option (gmap (string * string) (list row))
}.

Definition rows_of (db : gmap (string * string) (list row))
    (schema table : string) : list row :=
  default [] (db !! (schema, table)).

Definition set_tables (st : pg_state)
    (db : gmap (string * string) (list row)) : pg_state :=
  {| tables := db; connected := connected st; snapshot := snapshot st |}.

Definition in_transaction (st : pg_state) : bool :=
  match snapshot st with Some _ => true | None => false end.

(** Modelled from the spec: the one equality predicate
    [where_key = where_value] of section 6, on a row. *)
Definition matches (where_key : string) (where_value : value) (r : row)
  : bool :=
  bool_decide (r !! where_key = Some where_value).

(** Modelled from the spec: the unique key of a table.  Section 3 makes
    [name] the unique identifier of a [datasource] row; no key is given
    for [datasourceevent]. *)
Definition unique_key (table : string) : option string :=
  if decide (table = "datasource") then Some "name" else None.

Definition violates_key (table : string) (new : row) (rows : list row)
  : bool :=
  match unique_key table with
  | Some k =>
      match new !! k with
      | Some v => existsb (matches k v) rows
      | None => false
      end
  | None => false
  end.

(** Modelled from the spec: [update] of section 6 on one row, the column
    set when the row matches, the row kept when it does not. *)
Definition set_column (column : string) (v : value)
    (where_key : string) (where_value : value) (r : row) : row :=
  if matches where_key where_value r then <[column := v]> r else r.

(** Modelled from the spec: the behaviour of [PGDao], whose class is not
    among the sources, after the contract of section 6.  [create] inserts
    one row, and raises when the unique key rejects it (section 7, a);
    [read] selects the rows, all of them or those matching one equality
    predicate; [update] sets one column on the matching rows; [delete]
    removes the matching rows; not finding a row is no error (section 7,
    b).  [connect], [begin], [commit], [rollback] and [close] are the
    transaction lifecycle.  A call that names no schema is resolved to
    [dflt], the default of the data-access object, which the spec leaves
    open. *)
Definition pg_dao (dflt : string) : handler pg_state :=
  fun c st =>
    match c with
    | Connect =>
        ({| tables := tables st; connected := true;
            snapshot := snapshot st |}, Ok RNone)
    | Begin =>
        ({| tables := tables st; connected := connected st;
            snapshot := Some (tables st) |}, Ok RNone)
    | Commit =>
        ({| tables := tables st; connected := connected st;
            snapshot := None |}, Ok RNone)
    | Rollback =>
        ({| tables := default (tables st) (snapshot st);
            connected := connected st; snapshot := None |}, Ok RNone)
    | Close =>
        ({| tables := tables st; connected := false;
            snapshot := snapshot st |}, Ok RNone)
    | Create table columns values schema =>
        let s := default dflt schema in
        let new : row := list_to_map (zip columns values) in
        let rows := rows_of (tables st) s table in
        if violates_key table new rows
        then (st, Raise (IntegrityError "duplicate key"))
        else (set_tables st (<[(s, table) := rows ++ [new]]> (tables st)),
              Ok RNone)
    | Read table where_key where_value schema =>
        let s := default dflt schema in
        let rows := rows_of (tables st) s table in
        match where_key, where_value with
        | Some k, Some v => (st, Ok (RFrame (filter (matches k v) rows)))
        | _, _ => (st, Ok (RFrame rows))
        end
    | Update table column v where_key where_value schema =>
        let s := default dflt schema in
        let rows := rows_of (tables st) s table in
        (set_tables st
           (<[(s, table) :=
                map (set_column column v where_key where_value) rows]>
              (tables st)),
         Ok RNone)
    | Delete table where_key where_value schema =>
        let s := default dflt schema in
        let rows := rows_of (tables st) s table in
        (set_tables st
           (<[(s, table) :=
                filter (fun r => negb (matches where_key where_value r)) rows]>
              (tables st)),
         Ok RNone)
    end.

(** A simulated failure: the data-access object behaves as [h], except
    that its call number [n] (counted from 0) raises and leaves the back
    end as it is. *)
Definition failing_at {W : Type} (n : nat) (h : handler W)
  : handler (nat * W) :=
  fun c '(i, w) =>
    if decide (i = n)
    then ((S i, w), Raise (OperationalError "simulated failure"))
    else let '(w', r) := h c w in ((S i, w'), r).

(** ** A scenario *)

Module Scenario.

Definition credentials : DBCredentials :=
  {| database := "metadata"; user := "postgres"; host := "localhost";
     port := "5432"; password := "secret" |}.

Definition ds : DataSource.t := DataSource.__init__ credentials None.
Definition dse : DataSourceEvent.t := DataSourceEvent.__init__ credentials.

Definition T0 : Z := 1627700000.
Definition T1 : Z := 1628800000.

Definition fda_events : DataSource.create_args :=
  {| DataSource.name := "fda_events";
     DataSource.source_type := "web";
     DataSource.version := 1;
     DataSource.webpage := "https://open.fda.gov";
     DataSource.link := "https://open.fda.gov/data";
     DataSource.link_type := "zip";
     DataSource.frequency := 7;
     DataSource.lifecycle := 1;
     DataSource.creator := 1;
     DataSource.has_changed := false;
     DataSource.source_updated := T0;
     DataSource.created := T0;
     DataSource.created_by := "etl";
     DataSource.title := None;
     DataSource.description := None;
     DataSource.coverage := None;
     DataSource.maintainer := None |}.

Definition empty_db : pg_state :=
  {| tables := ∅; connected := false; snapshot := None |}.

(** The back end after [create(name="fda_events", ..., version=1, ...)]. *)
Definition created : pg_state :=
  final_state
    (interp (pg_dao "public") (DataSource.create ds fda_events []) empty_db).

(** ... and after
    [update("fda_events", version=2, uris=[...], has_changed=True,
            source_updated=T1, updated=T1, updated_by="etl")]. *)
Definition updated : pg_state :=
  final_state
    (interp (pg_dao "public")
       (DataSource.update ds "fda_events" 2 ["https://open.fda.gov/a.zip"]
          true T1 T1 "etl")
       created).

Definition read_back (st : pg_state) : result reply :=
  outcome
    (interp (pg_dao "public") (DataSource.read ds (Some "fda_events")) st).

(** The value of a column in each row of a read. *)
Definition column_of (c : string) (r : result reply)
  : option (list (option value)) :=
  match r with
  | Ok (RFrame rows) => Some (map (fun rw : row => rw !! c) rows)
  | _ => None
  end.

End Scenario.

(** ** The sequence of calls of [DataSource.update], as the
    specification words it *)

(** connect, begin, five single-column updates keyed on [name] (uris,
    has_changed, source_updated, updated, updated_by), commit, close. *)
Definition update_sequence (self : DataSource.t) (name : string)
    (uris : list string) (has_changed : bool) (source_updated : Z)
    (updated : Z) (updated_by : string) : list dao_call :=
  let column_update (column : string) (v : value) : dao_call :=
    Update (DataSource._table self) column v "name" (VStr name)
           (Some (DataSource._schema self)) in
  [Connect; Begin;
   column_update "uris" (VList uris);
   column_update "has_changed" (VBool has_changed);
   column_update "source_updated" (VTime source_updated);
   column_update "updated" (VTime updated);
   column_update "updated_by" (VStr updated_by);
   Commit; Close].

(** The programme that makes the calls of a list, one after the other,
    and ignores what they hand back. *)
Fixpoint run_sequence (cs : list dao_call) : prog unit :=
  match cs with
  | [] => Ret tt
  | c :: cs' => Call c (fun _ => run_sequence cs')
  end.

(** The columns that [DataSource.update] writes. *)
Definition updated_columns : list string :=
  ["uris"; "has_changed"; "source_updated"; "updated"; "updated_by"].

(** What the five column updates of [DataSource.update] make of a row
    they match. *)
Definition update_row (uris : list string) (has_changed : bool)
    (source_updated : Z) (updated : Z) (updated_by : string) (r : row)
  : row :=
  <["updated_by" := VStr updated_by]>
    (<["updated" := VTime updated]>
       (<["source_updated" := VTime source_updated]>
          (<["has_changed" := VBool has_changed]>
             (<["uris" := VList uris]> r)))).

(** The column writes of [DataSource.update], in the order the method
    makes them. *)
Definition column_updates (uris : list string) (has_changed : bool)
    (source_updated : Z) (updated : Z) (updated_by : string)
  : list (string * value) :=
  [("uris", VList uris);
   ("has_changed", VBool has_changed);
   ("source_updated", VTime source_updated);
   ("updated", VTime updated);
   ("updated_by", VStr updated_by)].

(** Column writes applied to a row, first to last. *)
Definition set_columns (writes : list (string * value)) (r : row) : row :=
  foldl (fun (r : row) (cv : string * value) => <[cv.1 := cv.2]> r) r writes.

(** * Properties *)

(** ** Running programmes *)

Section Interp.

Context {W : Type} (h : handler W).

Lemma interp_call_ok {A : Type} (c : dao_call) (k : reply -> prog A)
    (w w' : W) (r : reply) :
  h c w = (w', Ok r) ->
  interp h (Call c k) w =
    (final_state (interp h (k r) w'),
     c :: trace (interp h (k r) w'),
     outcome (interp h (k r) w')).
Proof.
  intros Hc. cbn [interp]. rewrite Hc.
  destruct (interp h (k r) w') as [[w'' tr] res]. reflexivity.
Qed.

Lemma interp_call_raise {A : Type} (c : dao_call) (k : reply -> prog A)
    (w w' : W) (e : exn) :
  h c w = (w', Raise e) ->
  interp h (Call c k) w = (w', [c], Raise e).
Proof. intros Hc. cbn [interp]. rewrite Hc. reflexivity. Qed.

(** The trace of a sequence is always a prefix of the sequence. *)
Lemma run_sequence_prefix (cs : list dao_call) (w : W) :
  trace (interp h (run_sequence cs) w) `prefix_of` cs.
Proof.
  revert w. induction cs as [|c cs IH]; intros w.
  - apply prefix_nil.
  - cbn [run_sequence interp]. destruct (h c w) as [w' [r|e]].
    + specialize (IH w').
      destruct (interp h (run_sequence cs) w') as [[w'' tr] res].
      cbn in *. by apply prefix_cons.
    + cbn. apply prefix_cons, prefix_nil.
Qed.

(** A sequence that runs to its end has made all its calls. *)
Lemma run_sequence_ok (cs : list dao_call) (w : W) :
  outcome (interp h (run_sequence cs) w) = Ok tt ->
  trace (interp h (run_sequence cs) w) = cs.
Proof.
  revert w. induction cs as [|c cs IH]; intros w; [done|].
  cbn [run_sequence interp]. destruct (h c w) as [w' [r|e]]; [|done].
  specialize (IH w').
  destruct (interp h (run_sequence cs) w') as [[w'' tr] res].
  cbn in *. intros Hres. by rewrite IH.
Qed.

(** The first call to raise, after a prefix that ran through, ends the
    run: the prefix and the raising call are the trace, nothing of the
    rest is reached, and the exception is the outcome. *)
Lemma run_sequence_raise (pre post : list dao_call) (c : dao_call)
    (w wk w' : W) (e : exn) :
  interp h (run_sequence pre) w = (wk, pre, Ok tt) ->
  h c wk = (w', Raise e) ->
  interp h (run_sequence (pre ++ c :: post)) w = (w', pre ++ [c], Raise e).
Proof.
  revert w. induction pre as [|a pre IH]; intros w Hpre Hc.
  - cbn in Hpre. injection Hpre as ->. cbn. by rewrite Hc.
  - cbn [run_sequence interp app] in *.
    destruct (h a w) as [w1 [r|e1]]; [|done].
    destruct (interp h (run_sequence pre) w1) as [[w2 tr] res] eqn:Hrun.
    injection Hpre as -> -> ->.
    by rewrite (IH w1 Hrun Hc).
Qed.

End Interp.

(** ** The calls a programme issues *)

Lemma issues_ret {A : Type} (a : A) (c : dao_call) : ¬ issues (Ret a) c.
Proof. inversion 1. Qed.

Lemma issues_call {A : Type} (c : dao_call) (k : reply -> prog A)
    (c' : dao_call) :
  issues (Call c k) c' <-> c' = c \/ exists r, issues (k r) c'.
Proof.
  split.
  - remember (Call c k) as p eqn:Hp. intros Hi.
    destruct Hi as [c0 k0|c0 k0 r c1 Hi]; injection Hp as -> ->; eauto.
  - intros [->|[r Hr]]; [apply issues_head|by eapply issues_tail].
Qed.

Lemma issues_run_sequence (cs : list dao_call) (c : dao_call) :
  issues (run_sequence cs) c <-> c ∈ cs.
Proof.
  induction cs as [|a cs IH]; cbn [run_sequence].
  - split; [intros []%issues_ret|by intros ?%elem_of_nil].
  - rewrite issues_call, elem_of_cons, <- IH. split.
    + intros [->|[_ Hi]]; auto.
    + intros [->|Hi]; [by left|right; by exists RNone].
Qed.


(** ** The storage back end *)

Lemma rows_of_insert_eq (db : gmap (string * string) (list row))
    (s t : string) (l : list row) :
  rows_of (<[(s, t) := l]> db) s t = l.
Proof. unfold rows_of. by rewrite lookup_insert_eq. Qed.

Lemma rows_of_insert_ne (db : gmap (string * string) (list row))
    (s t s' t' : string) (l : list row) :
  (s, t) ≠ (s', t') ->
  rows_of (<[(s, t) := l]> db) s' t' = rows_of db s' t'.
Proof. intros Hne. unfold rows_of. by rewrite lookup_insert_ne. Qed.

Lemma matches_spec (k : string) (v : value) (r : row) :
  matches k v r = true <-> r !! k = Some v.
Proof.
  unfold matches. rewrite <- Is_true_true. apply bool_decide_spec.
Qed.

(** Setting a column other than the one the predicate reads does not
    change which rows match. *)
Lemma matches_set_column (column : string) (v : value)
    (k : string) (kv : value) (r : row) :
  column ≠ k ->
  matches k kv (set_column column v k kv r) = matches k kv r.
Proof.
  intros Hne. unfold set_column.
  destruct (matches k kv r) eqn:Hm; [|done].
  apply matches_spec. rewrite lookup_insert_ne by done.
  by apply matches_spec.
Qed.

Lemma set_column_match (column : string) (v : value)
    (k : string) (kv : value) (r : row) :
  matches k kv r = true -> set_column column v k kv r = <[column := v]> r.
Proof. intros Hm. unfold set_column. by rewrite Hm. Qed.

Lemma set_column_no_match (column : string) (v : value)
    (k : string) (kv : value) (r : row) :
  matches k kv r = false -> set_column column v k kv r = r.
Proof. intros Hm. unfold set_column. by rewrite Hm. Qed.

Lemma matches_insert_ne (column : string) (v : value)
    (k : string) (kv : value) (r : row) :
  column ≠ k -> matches k kv (<[column := v]> r) = matches k kv r.
Proof.
  intros Hne. unfold matches. by rewrite lookup_insert_ne.
Qed.

(** ** [DataSource.update] *)

(** The method is its sequence of calls, literally. *)
Lemma update_is_sequence (self : DataSource.t) (name : string) (version : Z)
    (uris : list string) (has_changed : bool) (source_updated updated : Z)
    (updated_by : string) :
  DataSource.update self name version uris has_changed source_updated
    updated updated_by =
  run_sequence
    (update_sequence self name uris has_changed source_updated updated
       updated_by).
Proof. reflexivity. Qed.

(** Side conditions on which rows match, through column updates that
    leave the key alone. *)
Ltac solve_matches :=
  repeat first
    [ rewrite matches_set_column by done
    | rewrite matches_insert_ne by done ];
  done.

(** The five column updates, one after the other, on the rows of the
    table. *)
Lemma five_updates_rows (name : string) (uris : list string)
    (has_changed : bool) (source_updated updated : Z) (updated_by : string)
    (rows : list row) :
  map (set_column "updated_by" (VStr updated_by) "name" (VStr name))
    (map (set_column "updated" (VTime updated) "name" (VStr name))
       (map (set_column "source_updated" (VTime source_updated)
               "name" (VStr name))
          (map (set_column "has_changed" (VBool has_changed)
                  "name" (VStr name))
             (map (set_column "uris" (VList uris) "name" (VStr name))
                rows)))) =
  map (fun r => if matches "name" (VStr name) r
                then update_row uris has_changed source_updated updated
                       updated_by r
                else r) rows.
Proof.
  rewrite !map_map. apply map_ext. intros r.
  destruct (matches "name" (VStr name) r) eqn:Hm.
  - unfold update_row.
    by rewrite !set_column_match by solve_matches.
  - by rewrite !set_column_no_match by solve_matches.
Qed.

(** The run of [DataSource.update] on the storage back end: it never
    raises, makes the whole sequence of calls, and leaves the rows of its
    table that match [name] rewritten by [update_row]. *)
Lemma pg_update_run (dflt : string) (self : DataSource.t) (name : string)
    (version : Z) (uris : list string) (has_changed : bool)
    (source_updated updated : Z) (updated_by : string) (st : pg_state) :
  interp (pg_dao dflt)
    (DataSource.update self name version uris has_changed source_updated
       updated updated_by) st =
  ({| tables :=
        <[(DataSource._schema self, DataSource._table self) :=
            map (fun r => if matches "name" (VStr name) r
                          then update_row uris has_changed source_updated
                                 updated updated_by r
                          else r)
              (rows_of (tables st) (DataSource._schema self)
                 (DataSource._table self))]> (tables st);
      connected := false;
      snapshot := None |},
   update_sequence self name uris has_changed source_updated updated
     updated_by,
   Ok tt).
Proof.
  rewrite update_is_sequence. unfold update_sequence.
  cbn [run_sequence interp pg_dao default set_tables tables connected
       snapshot].
  rewrite !rows_of_insert_eq, !insert_insert_eq.
  by rewrite five_updates_rows.
Qed.

Lemma update_row_matches (name : string) (uris : list string)
    (has_changed : bool) (source_updated updated : Z) (updated_by : string)
    (r : row) :
  matches "name" (VStr name)
    (update_row uris has_changed source_updated updated updated_by r) =
  matches "name" (VStr name) r.
Proof. unfold update_row. by rewrite !matches_insert_ne by done. Qed.

Lemma update_row_written (uris : list string) (has_changed : bool)
    (source_updated updated : Z) (updated_by : string) (r : row) :
  let r' := update_row uris has_changed source_updated updated updated_by r in
  r' !! "uris" = Some (VList uris) /\
  r' !! "has_changed" = Some (VBool has_changed) /\
  r' !! "source_updated" = Some (VTime source_updated) /\
  r' !! "updated" = Some (VTime updated) /\
  r' !! "updated_by" = Some (VStr updated_by).
Proof. cbv zeta. unfold update_row. by simplify_map_eq. Qed.

Lemma update_row_frame (uris : list string) (has_changed : bool)
    (source_updated updated : Z) (updated_by : string) (r : row)
    (c : string) :
  c ∉ updated_columns ->
  update_row uris has_changed source_updated updated updated_by r !! c =
  r !! c.
Proof.
  unfold updated_columns. rewrite !not_elem_of_cons.
  intros (? & ? & ? & ? & ? & _). unfold update_row.
  by rewrite !lookup_insert_ne by done.
Qed.

Lemma filter_update_rows (name : string) (uris : list string)
    (has_changed : bool) (source_updated updated : Z) (updated_by : string)
    (rows : list row) :
  filter (matches "name" (VStr name))
    (map (fun r => if matches "name" (VStr name) r
                   then update_row uris has_changed source_updated updated
                          updated_by r
                   else r) rows) =
  map (update_row uris has_changed source_updated updated updated_by)
    (filter (matches "name" (VStr name)) rows).
Proof.
  induction rows as [|r rows IH]; [done|].
  cbn [map]. rewrite !filter_cons.
  destruct (matches "name" (VStr name) r) eqn:Hm.
  - rewrite update_row_matches, Hm. cbn. by rewrite IH.
  - rewrite Hm. done.
Qed.

(** The run of [DataSource.read] on the storage back end. *)
Lemma pg_read_name (dflt : string) (self : DataSource.t) (n : string)
    (st : pg_state) :
  interp (pg_dao dflt) (DataSource.read self (Some n)) st =
  (st,
   [Read (DataSource._table self) (Some "name") (Some (VStr n))
      (Some (DataSource._schema self))],
   Ok (RFrame (filter (matches "name" (VStr n))
                 (rows_of (tables st) (DataSource._schema self)
                    (DataSource._table self))))).
Proof. reflexivity. Qed.

Lemma pg_read_all (dflt : string) (self : DataSource.t) (st : pg_state) :
  interp (pg_dao dflt) (DataSource.read self None) st =
  (st,
   [Read (DataSource._table self) None None (Some (DataSource._schema self))],
   Ok (RFrame (rows_of (tables st) (DataSource._schema self)
                 (DataSource._table self)))).
Proof. reflexivity. Qed.

(** What [read(name)] returns after [update(name, ...)]: the rows it
    returned before, each rewritten by [update_row]. *)
Lemma read_after_update (dflt : string) (self : DataSource.t) (name : string)
    (version : Z) (uris : list string) (has_changed : bool)
    (source_updated updated : Z) (updated_by : string) (st : pg_state) :
  outcome
    (interp (pg_dao dflt) (DataSource.read self (Some name))
       (final_state
          (interp (pg_dao dflt)
             (DataSource.update self name version uris has_changed
                source_updated updated updated_by) st))) =
  Ok (RFrame
        (map (update_row uris has_changed source_updated updated updated_by)
           (filter (matches "name" (VStr name))
              (rows_of (tables st) (DataSource._schema self)
                 (DataSource._table self))))).
Proof.
  rewrite pg_update_run, pg_read_name. unfold outcome, final_state.
  cbn [fst snd tables]. rewrite rows_of_insert_eq.
  by rewrite filter_update_rows.
Qed.

(** C1: after [create(name="fda_events", ..., version=1, ...)] and
    [update("fda_events", version=2, uris=[...], has_changed=True, ...)],
    [read("fda_events")] returns one row whose [has_changed] is [True]
    but whose [version] is still 1, not the 2 passed to [update]: the
    method takes [version] and writes no [version] column. *)
Theorem DataSource_update_leaves_version :
  Scenario.column_of "version" (Scenario.read_back Scenario.created) =
    Some [Some (VInt 1)] /\
  Scenario.column_of "version" (Scenario.read_back Scenario.updated) =
    Some [Some (VInt 1)] /\
  Scenario.column_of "has_changed" (Scenario.read_back Scenario.updated) =
    Some [Some (VBool true)].
Proof. by vm_compute. Qed.

(** The [version] argument has no part in what [update] does, and the
    [version] column of every row read back is what it was. *)
Lemma DataSource_update_version_unused (self : DataSource.t) (name : string)
    (version version' : Z) (uris : list string) (has_changed : bool)
    (source_updated updated : Z) (updated_by : string) :
  DataSource.update self name version uris has_changed source_updated
    updated updated_by =
  DataSource.update self name version' uris has_changed source_updated
    updated updated_by.
Proof. reflexivity. Qed.

(** C2: every call of [DataSource.update] is the sequence connect, begin,
    the five single-column updates keyed on [name] (uris, has_changed,
    source_updated, updated, updated_by), commit, close, in this order.
    The method is that sequence; on the storage back end it always runs
    to its end and makes exactly these calls; under any data-access
    object the calls made are a prefix of the sequence, and the whole of
    it when the method returns. *)
Theorem DataSource_update_call_sequence (self : DataSource.t) (name : string)
    (version : Z) (uris : list string) (has_changed : bool)
    (source_updated updated : Z) (updated_by : string) :
  let method :=
    DataSource.update self name version uris has_changed source_updated
      updated updated_by in
  let calls :=
    [Connect; Begin;
     Update (DataSource._table self) "uris" (VList uris)
       "name" (VStr name) (Some (DataSource._schema self));
     Update (DataSource._table self) "has_changed" (VBool has_changed)
       "name" (VStr name) (Some (DataSource._schema self));
     Update (DataSource._table self) "source_updated" (VTime source_updated)
       "name" (VStr name) (Some (DataSource._schema self));
     Update (DataSource._table self) "updated" (VTime updated)
       "name" (VStr name) (Some (DataSource._schema self));
     Update (DataSource._table self) "updated_by" (VStr updated_by)
       "name" (VStr name) (Some (DataSource._schema self));
     Commit; Close] in
  method = run_sequence calls /\
  (forall (dflt : string) (st : pg_state),
     trace (interp (pg_dao dflt) method st) = calls /\
     outcome (interp (pg_dao dflt) method st) = Ok tt) /\
  (forall (W : Type) (h : handler W) (w : W),
     trace (interp h method w) `prefix_of` calls /\
     (outcome (interp h method w) = Ok tt ->
      trace (interp h method w) = calls)).
Proof.
  cbv zeta. split; [reflexivity|]. split.
  - intros dflt st. by rewrite pg_update_run.
  - intros W h w. rewrite update_is_sequence. split.
    + apply run_sequence_prefix.
    + apply run_sequence_ok.
Qed.


(** C3: when one of the five column updates raises after the calls before
    it went through, [DataSource.update] ends there with that exception:
    the calls made are the ones up to the raising update, and no
    rollback, commit or close is among them.  With the failure simulated
    on the storage back end, the connection and the transaction that
    [begin] opened are still open afterwards. *)
Theorem DataSource_update_partial_failure (self : DataSource.t)
    (name : string) (version : Z) (uris : list string) (has_changed : bool)
    (source_updated updated : Z) (updated_by : string) (k : nat) :
  let method :=
    DataSource.update self name version uris has_changed source_updated
      updated updated_by in
  let calls :=
    update_sequence self name uris has_changed source_updated updated
      updated_by in
  2 <= k < 7 ->
  (forall (W : Type) (h : handler W) (w wk w' : W) (c : dao_call) (e : exn),
     calls !! k = Some c ->
     final_state (interp h (run_sequence (take k calls)) w) = wk ->
     outcome (interp h (run_sequence (take k calls)) w) = Ok tt ->
     h c wk = (w', Raise e) ->
     outcome (interp h method w) = Raise e /\
     final_state (interp h method w) = w' /\
     trace (interp h method w) = take (S k) calls /\
     (Rollback ∉ trace (interp h method w)) /\
     (Commit ∉ trace (interp h method w)) /\
     (Close ∉ trace (interp h method w))) /\
  (forall (dflt : string) (st : pg_state),
     let o := interp (failing_at k (pg_dao dflt)) method (0, st) in
     outcome o = Raise (OperationalError "simulated failure") /\
     trace o = take (S k) calls /\
     in_transaction (snd (final_state o)) = true /\
     connected (snd (final_state o)) = true /\
     snapshot (snd (final_state o)) = Some (tables st)).
Proof.
  cbv zeta. intros Hk. split.
  - intros W h w wk w' c e Hc Hst Hok Hraise.
    pose proof (run_sequence_ok h _ w Hok) as Htr.
    assert (interp h (DataSource.update self name version uris has_changed
                        source_updated updated updated_by) w =
            (w', take k (update_sequence self name uris has_changed
                           source_updated updated updated_by) ++ [c],
             Raise e)) as Hrun.
    { rewrite update_is_sequence.
      rewrite <- (take_drop_middle _ _ _ Hc) at 1.
      apply (run_sequence_raise h _ _ c w wk w' e); [|done].
      destruct (interp h (run_sequence _) w) as [[? ?] ?].
      unfold final_state, outcome, trace in *. cbn [fst snd] in *.
      by subst. }
    rewrite Hrun, <- (take_S_r _ _ _ Hc).
    unfold outcome, final_state, trace. cbn [fst snd].
    repeat (split; [done|]).
    assert (k = 2 \/ k = 3 \/ k = 4 \/ k = 5 \/ k = 6) as Hcases by lia.
    unfold update_sequence.
    destruct Hcases as [-> | [-> | [-> | [-> | ->]]]]; cbn [take];
      rewrite !not_elem_of_cons; repeat split; try done;
      apply not_elem_of_nil.
  - intros dflt st.
    assert (k = 2 \/ k = 3 \/ k = 4 \/ k = 5 \/ k = 6) as Hcases by lia.
    destruct Hcases as [-> | [-> | [-> | [-> | ->]]]]; by vm_compute.
Qed.

Lemma DataSource_update_partial_failure_witness :
  let method :=
    DataSource.update Scenario.ds "fda_events" 2
      ["https://open.fda.gov/a.zip"] true Scenario.T1 Scenario.T1 "etl" in
  let o :=
    interp (failing_at 4 (pg_dao "public")) method (0, Scenario.created) in
  outcome o = Raise (OperationalError "simulated failure") /\
  trace o =
    [Connect; Begin;
     Update "datasource" "uris" (VList ["https://open.fda.gov/a.zip"])
       "name" (VStr "fda_events") (Some "public");
     Update "datasource" "has_changed" (VBool true)
       "name" (VStr "fda_events") (Some "public");
     Update "datasource" "source_updated" (VTime Scenario.T1)
       "name" (VStr "fda_events") (Some "public")] /\
  (Rollback ∉ trace o) /\ (Commit ∉ trace o) /\ (Close ∉ trace o) /\
  in_transaction (snd (final_state o)) = true.
Proof.
  cbv zeta.
  destruct (DataSource_update_partial_failure Scenario.ds "fda_events" 2
              ["https://open.fda.gov/a.zip"] true Scenario.T1 Scenario.T1
              "etl" 4 ltac:(lia)) as [Hany Hpg].
  set (h := failing_at 4 (pg_dao "public")).
  set (w := (0, Scenario.created)).
  set (calls := update_sequence Scenario.ds "fda_events"
                  ["https://open.fda.gov/a.zip"] true Scenario.T1
                  Scenario.T1 "etl").
  set (wk := final_state (interp h (run_sequence (take 4 calls)) w)).
  set (c := Update "datasource" "source_updated" (VTime Scenario.T1)
              "name" (VStr "fda_events") (Some "public")).
  destruct (Hany _ h w wk (fst (h c wk)) c
              (OperationalError "simulated failure"))
    as (Hout & _ & Htr & Hrb & Hcm & Hcl);
    [reflexivity | reflexivity | by vm_compute | by vm_compute |].
  destruct (Hpg "public" Scenario.created) as (_ & _ & Htxn & _).
  repeat split; assumption.
Defined.

(** ** Schema and table of the storage operations *)

Lemma append_items_spec (kw : kwargs) (columns : list string)
    (values : list value) :
  DataSource.append_items kw (columns, values) =
  (columns ++ map fst kw, values ++ map snd kw).
Proof.
  revert columns values. induction kw as [|[k v] kw IH]; intros columns values.
  - cbn. by rewrite !app_nil_r.
  - cbn [DataSource.append_items fst snd map]. rewrite IH.
    by rewrite <- !app_assoc.
Qed.

(** [DataSource.create] is one insert. *)
Lemma DataSource_create_call (self : DataSource.t)
    (a : DataSource.create_args) (kw : kwargs) :
  DataSource.create self a kw =
  Call (Create (DataSource._table self)
          (DataSource.fixed_columns ++ map fst kw)
          (DataSource.fixed_values a ++ map snd kw)
          (Some (DataSource._schema self)))
       (fun _ => Ret tt).
Proof. unfold DataSource.create. by rewrite append_items_spec. Qed.



(** ** [DataSource.read] and [DataSource.delete] *)

Lemma elem_of_filter_matches (k : string) (v : value) (rows : list row)
    (r : row) :
  r ∈ filter (matches k v) rows <-> r ∈ rows /\ r !! k = Some v.
Proof.
  rewrite list_elem_of_filter, Is_true_true, matches_spec. tauto.
Qed.

Lemma elem_of_filter_not_matches (k : string) (v : value) (rows : list row)
    (r : row) :
  r ∈ filter (fun r => negb (matches k v r)) rows <->
  r ∈ rows /\ r !! k ≠ Some v.
Proof.
  rewrite list_elem_of_filter. rewrite <- matches_spec.
  destruct (matches k v r); cbn; intuition congruence.
Qed.

(** C6: [DataSource.read] with a name is one read of the table filtered
    by the equality [name = <the name>], and what it returns is what that
    read returns: on the storage back end, the rows of the table whose
    [name] is the one given, which is the empty result, not an error,
    when there is none.  Without a name it is one unfiltered read, and
    returns all rows of the table. *)
Theorem DataSource_read_delegates (self : DataSource.t) (dflt : string)
    (st : pg_state) :
  let table := DataSource._table self in
  let schema := DataSource._schema self in
  let rows := rows_of (tables st) schema table in
  (forall n : string,
     DataSource.read self (Some n) =
       dao (Read table (Some "name") (Some (VStr n)) (Some schema)) /\
     exists found : list row,
       interp (pg_dao dflt) (DataSource.read self (Some n)) st =
         (st, [Read table (Some "name") (Some (VStr n)) (Some schema)],
          Ok (RFrame found)) /\
       found = filter (matches "name" (VStr n)) rows /\
       (forall r : row, r ∈ found <-> r ∈ rows /\ r !! "name" = Some (VStr n)) /\
       ((forall r : row, r ∈ rows -> r !! "name" ≠ Some (VStr n)) ->
        found = [])) /\
  DataSource.read self None = dao (Read table None None (Some schema)) /\
  interp (pg_dao dflt) (DataSource.read self None) st =
    (st, [Read table None None (Some schema)], Ok (RFrame rows)).
Proof.
  cbv zeta. split; [|done].
  intros n. split; [done|]. eexists. split; [apply pg_read_name|].
  split; [done|]. split; [apply elem_of_filter_matches|].
  intros Hnone. apply elem_of_nil_inv. intros r.
  rewrite elem_of_filter_matches. intros [Hin Hname].
  by apply (Hnone r).
Qed.

(** C7: for every name, [DataSource.delete(name)] returns without an
    exception after one delete keyed on [name]; the rows left in the
    table are those whose [name] is not the argument, in their order; no
    other table changes; and when no row has that name the table keeps
    all its rows. *)
Theorem DataSource_delete_total (self : DataSource.t) (dflt : string)
    (name : string) (st : pg_state) :
  let table := DataSource._table self in
  let schema := DataSource._schema self in
  let rows := rows_of (tables st) schema table in
  let o := interp (pg_dao dflt) (DataSource.delete self name) st in
  let rows' := rows_of (tables (final_state o)) schema table in
  outcome o = Ok tt /\
  trace o = [Delete table "name" (VStr name) (Some schema)] /\
  rows' = filter (fun r => negb (matches "name" (VStr name) r)) rows /\
  (forall r : row, r ∈ rows' <-> r ∈ rows /\ r !! "name" ≠ Some (VStr name)) /\
  length rows = (length rows' +
                 length (filter (matches "name" (VStr name)) rows))%nat /\
  (forall s' t' : string,
     (schema, table) ≠ (s', t') ->
     rows_of (tables (final_state o)) s' t' = rows_of (tables st) s' t') /\
  ((forall r : row, r ∈ rows -> r !! "name" ≠ Some (VStr name)) ->
   rows' = rows /\
   forall s' t' : string,
     rows_of (tables (final_state o)) s' t' = rows_of (tables st) s' t').
Proof.
  cbv zeta.
  assert (tables (final_state
                    (interp (pg_dao dflt) (DataSource.delete self name) st)) =
          <[(DataSource._schema self, DataSource._table self) :=
              filter (fun r => negb (matches "name" (VStr name) r))
                (rows_of (tables st) (DataSource._schema self)
                   (DataSource._table self))]> (tables st)) as ->
    by reflexivity.
  rewrite rows_of_insert_eq.
  split; [done|]. split; [done|]. split; [done|].
  split; [intros r; apply elem_of_filter_not_matches|].
  split.
  { induction (rows_of (tables st) _ _) as [|r rows IH]; [done|].
    rewrite !filter_cons.
    destruct (matches "name" (VStr name) r); cbn in *;
      repeat case_decide; try tauto; cbn; lia. }
  split; [intros s' t' Hne; by apply rows_of_insert_ne|].
  intros Hnone.
  assert (filter (fun r => negb (matches "name" (VStr name) r))
            (rows_of (tables st) (DataSource._schema self)
               (DataSource._table self)) =
          rows_of (tables st) (DataSource._schema self)
            (DataSource._table self)) as Hsame.
  { induction (rows_of (tables st) _ _) as [|r rows IH]; [done|].
    rewrite filter_cons.
    assert (matches "name" (VStr name) r = false) as ->.
    { apply not_true_is_false. rewrite matches_spec.
      apply Hnone. by left. }
    cbn. rewrite IH; [done|]. intros r' Hr'. apply Hnone. by right. }
  split; [done|]. intros s' t'. rewrite Hsame.
  destruct (decide ((DataSource._schema self, DataSource._table self) =
                    (s', t'))) as [[= <- <-]|Hne].
  - by rewrite rows_of_insert_eq.
  - by rewrite rows_of_insert_ne.
Qed.

(** ** [DataSourceEvent.create] *)

Lemma map_fst_fmap {A B : Type} (l : list (A * B)) : map fst l = l.*1.
Proof. induction l as [|x l IH]; [done|]. cbn. by rewrite IH. Qed.

Lemma map_snd_fmap {A B : Type} (l : list (A * B)) : map snd l = l.*2.
Proof. induction l as [|x l IH]; [done|]. cbn. by rewrite IH. Qed.

Lemma zip_map_fst_snd {A B : Type} (l : list (A * B)) :
  zip (map fst l) (map snd l) = l.
Proof. rewrite map_fst_fmap, map_snd_fmap. apply zip_fst_snd. Qed.






(** ** [DataSource.create] *)

(** C9: the insert that [DataSource.create] issues has a column list and
    a value list of equal length; paired by position, they are the 17
    fixed attributes, name through maintainer, each with its parameter,
    followed by the extra keyword attributes, key with value, in keyword
    order. *)
Theorem DataSource_create_columns_values (self : DataSource.t)
    (a : DataSource.create_args) (kw : kwargs) :
  exists (columns : list string) (values : list value),
    DataSource.create self a kw =
      Call (Create (DataSource._table self) columns values
              (Some (DataSource._schema self)))
           (fun _ => Ret tt) /\
    length columns = length values /\
    length columns = (17 + length kw)%nat /\
    zip (take 17 columns) (take 17 values) =
      [("name", VStr (DataSource.name a));
       ("source_type", VStr (DataSource.source_type a));
       ("version", VInt (DataSource.version a));
       ("webpage", VStr (DataSource.webpage a));
       ("link", VStr (DataSource.link a));
       ("link_type", VStr (DataSource.link_type a));
       ("frequency", VInt (DataSource.frequency a));
       ("lifecycle", VInt (DataSource.lifecycle a));
       ("creator", VInt (DataSource.creator a));
       ("has_changed", VBool (DataSource.has_changed a));
       ("source_updated", VTime (DataSource.source_updated a));
       ("created", VTime (DataSource.created a));
       ("created_by", VStr (DataSource.created_by a));
       ("title", opt_str (DataSource.title a));
       ("description", opt_str (DataSource.description a));
       ("coverage", opt_str (DataSource.coverage a));
       ("maintainer", opt_str (DataSource.maintainer a))] /\
    drop 17 columns = map fst kw /\
    drop 17 values = map snd kw /\
    zip (drop 17 columns) (drop 17 values) = kw /\
    zip columns values =
      zip DataSource.fixed_columns (DataSource.fixed_values a) ++ kw.
Proof.
  exists (DataSource.fixed_columns ++ map fst kw),
         (DataSource.fixed_values a ++ map snd kw).
  split; [apply DataSource_create_call|].
  assert (length DataSource.fixed_columns = 17%nat) as Hc by reflexivity.
  assert (length (DataSource.fixed_values a) = 17%nat) as Hv by reflexivity.
  split; [by rewrite !length_app, !length_map, Hc, Hv|].
  split; [by rewrite length_app, length_map, Hc|].
  split; [by rewrite !take_app_length' by done|].
  split; [by rewrite drop_app_length' by done|].
  split; [by rewrite drop_app_length' by done|].
  split; [rewrite !drop_app_length' by done; apply zip_map_fst_snd|].
  rewrite zip_with_app by congruence.
  f_equal. apply zip_map_fst_snd.
Qed.

(** ** The constructors *)

(** C10: the [Artifact] constructor ignores its arguments, so the
    data-access object and the connection factory of a [DataSource] are
    built with no credentials (and no autocommit), whatever credentials
    and autocommit [DataSource] was given; the [Event] constructor hands
    its credentials and its autocommit on to its data-access object. *)
Theorem constructors_and_credentials (credentials : DBCredentials)
    (autocommit : bool) :
  (forall (args : list pyarg) (kw : list (string * pyarg)),
     Artifact.__init__ args kw = Artifact.__init__ [] []) /\
  DataSource._dao (DataSource.__init__ credentials (Some autocommit)) =
    {| dao_credentials := None; dao_autocommit := None |} /\
  DataSource._connection_factory
    (DataSource.__init__ credentials (Some autocommit)) =
    {| factory_credentials := None |} /\
  (forall (credentials' : DBCredentials) (autocommit' : option bool),
     DataSource.__init__ credentials' autocommit' =
     DataSource.__init__ credentials (Some autocommit)) /\
  (forall (args : list pyarg) (kw : list (string * pyarg)),
     Event._dao (Event.__init__ credentials (Some autocommit) args kw) =
       {| dao_credentials := Some credentials;
          dao_autocommit := Some autocommit |} /\
     Event._credentials
       (Event.__init__ credentials (Some autocommit) args kw) =
       credentials) /\
  DataSourceEvent._dao (DataSourceEvent.__init__ credentials) =
    {| dao_credentials := Some credentials; dao_autocommit := Some true |}.
Proof. repeat split. Qed.

(** ** The properties at work on the scenario *)

Lemma DataSource_update_call_sequence_witness :
  trace (interp (pg_dao "public")
           (DataSource.update Scenario.ds "fda_events" 2
              ["https://open.fda.gov/a.zip"] true Scenario.T1 Scenario.T1
              "etl") Scenario.created) =
  [Connect; Begin;
   Update "datasource" "uris" (VList ["https://open.fda.gov/a.zip"])
     "name" (VStr "fda_events") (Some "public");
   Update "datasource" "has_changed" (VBool true)
     "name" (VStr "fda_events") (Some "public");
   Update "datasource" "source_updated" (VTime Scenario.T1)
     "name" (VStr "fda_events") (Some "public");
   Update "datasource" "updated" (VTime Scenario.T1)
     "name" (VStr "fda_events") (Some "public");
   Update "datasource" "updated_by" (VStr "etl")
     "name" (VStr "fda_events") (Some "public");
   Commit; Close].
Proof.
  destruct (DataSource_update_call_sequence Scenario.ds "fda_events" 2
              ["https://open.fda.gov/a.zip"] true Scenario.T1 Scenario.T1
              "etl") as (_ & _ & Hany).
  destruct (Hany _ (pg_dao "public") Scenario.created) as [_ Hok].
  apply Hok. by vm_compute.
Defined.

Lemma DataSource_read_delegates_witness :
  outcome (interp (pg_dao "public")
             (DataSource.read Scenario.ds (Some "aact")) Scenario.created) =
  Ok (RFrame []).
Proof.
  destruct (DataSource_read_delegates Scenario.ds "public" Scenario.created)
    as [Hname _].
  destruct (Hname "aact") as (_ & found & Hrun & _ & _ & Hnone).
  rewrite Hrun. unfold outcome. cbn [snd]. f_equal. f_equal.
  apply Hnone. intros r Hr.
  assert (r !! "name" = Some (VStr "fda_events")) as ->; [|done].
  vm_compute in Hr. apply list_elem_of_singleton in Hr. by subst r.
Defined.

Lemma DataSource_delete_total_witness :
  let o :=
    interp (pg_dao "public") (DataSource.delete Scenario.ds "aact")
      Scenario.created in
  outcome o = Ok tt /\
  rows_of (tables (final_state o)) "public" "datasource" =
  rows_of (tables Scenario.created) "public" "datasource".
Proof.
  cbv zeta.
  destruct (DataSource_delete_total Scenario.ds "public" "aact"
              Scenario.created) as (Hok & _ & _ & _ & _ & _ & Hnone).
  split; [exact Hok|]. apply Hnone. intros r Hr.
  assert (r !! "name" = Some (VStr "fda_events")) as ->; [|done].
  vm_compute in Hr. apply list_elem_of_singleton in Hr. by subst r.
Defined.

(** The unique key at work: a second [create] under the same name raises
    and writes nothing. *)
Example DataSource_create_duplicate :
  let o :=
    interp (pg_dao "public")
      (DataSource.create Scenario.ds Scenario.fda_events [])
      Scenario.created in
  outcome o = Raise (IntegrityError "duplicate key") /\
  final_state o = Scenario.created.
Proof. by vm_compute. Qed.

(** * Further properties of the methods *)

(** ** Under any data-access object *)

(** Every call a run makes is a call the programme issues. *)
Lemma trace_issues {W A : Type} (h : handler W) (p : prog A) (w : W)
    (c : dao_call) :
  c ∈ trace (interp h p w) -> issues p c.
Proof.
  revert w. induction p as [a|c0 k IH]; intros w.
  - cbn. by intros ?%elem_of_nil.
  - cbn [interp]. destruct (h c0 w) as [w' [r|e]].
    + specialize (IH r w').
      destruct (interp h (k r) w') as [[w'' tr] res]. cbn in *.
      rewrite elem_of_cons. intros [->|Hin]; [apply issues_head|].
      eapply issues_tail. by apply IH.
    + cbn. rewrite list_elem_of_singleton. intros ->. apply issues_head.
Qed.

(** The call at position [k] raising, after the calls before it went
    through, ends a sequence there. *)
Lemma run_sequence_fail_at {W : Type} (h : handler W) (cs : list dao_call)
    (k : nat) (c : dao_call) (w wk w' : W) (e : exn) :
  cs !! k = Some c ->
  final_state (interp h (run_sequence (take k cs)) w) = wk ->
  outcome (interp h (run_sequence (take k cs)) w) = Ok tt ->
  h c wk = (w', Raise e) ->
  interp h (run_sequence cs) w = (w', take (S k) cs, Raise e).
Proof.
  intros Hc Hst Hok Hraise.
  pose proof (run_sequence_ok h _ w Hok) as Htr.
  rewrite (take_S_r _ _ _ Hc).
  rewrite <- (take_drop_middle _ _ _ Hc) at 1.
  apply (run_sequence_raise h _ _ c w wk w' e); [|done].
  destruct (interp h (run_sequence _) w) as [[? ?] ?].
  unfold final_state, outcome, trace in *. cbn [fst snd] in *. by subst.
Qed.

(** X1: whichever of the nine calls of [DataSource.update] is the first
    to raise, the method ends there with that exception and makes none of
    the later calls.  So connect raising means nothing else is issued,
    anything raising before commit means nothing is committed, and
    anything raising before close, commit included, means the connection
    is not closed by the method; no rollback is issued in any case. *)
Theorem DataSource_update_first_failure_ends (self : DataSource.t)
    (name : string) (version : Z) (uris : list string) (has_changed : bool)
    (source_updated updated : Z) (updated_by : string)
    (W : Type) (h : handler W) (w wk w' : W) (k : nat) (c : dao_call)
    (e : exn) :
  let method :=
    DataSource.update self name version uris has_changed source_updated
      updated updated_by in
  let calls :=
    update_sequence self name uris has_changed source_updated updated
      updated_by in
  calls !! k = Some c ->
  final_state (interp h (run_sequence (take k calls)) w) = wk ->
  outcome (interp h (run_sequence (take k calls)) w) = Ok tt ->
  h c wk = (w', Raise e) ->
  outcome (interp h method w) = Raise e /\
  final_state (interp h method w) = w' /\
  trace (interp h method w) = take (S k) calls /\
  (Rollback ∉ trace (interp h method w)) /\
  (k = 0 -> trace (interp h method w) = [Connect]) /\
  (k < 7 -> Commit ∉ trace (interp h method w)) /\
  (k < 8 -> Close ∉ trace (interp h method w)).
Proof.
  cbv zeta. intros Hc Hst Hok Hraise.
  rewrite update_is_sequence.
  rewrite (run_sequence_fail_at h _ k c w wk w' e Hc Hst Hok Hraise).
  unfold outcome, final_state, trace. cbn [fst snd].
  repeat (split; [done|]).
  assert (k < 9) as Hk by (apply lookup_lt_Some in Hc; exact Hc).
  unfold update_sequence.
  do 9 (destruct k as [|k]; [cbn [take]; rewrite !not_elem_of_cons;
          repeat split; try done; try lia; try apply not_elem_of_nil|]).
  lia.
Qed.

Lemma DataSource_update_first_failure_ends_witness :
  let method :=
    DataSource.update Scenario.ds "fda_events" 2
      ["https://open.fda.gov/a.zip"] true Scenario.T1 Scenario.T1 "etl" in
  let o :=
    interp (failing_at 7 (pg_dao "public")) method (0, Scenario.created) in
  outcome o = Raise (OperationalError "simulated failure") /\
  (Close ∉ trace o) /\
  connected (snd (final_state o)) = true.
Proof.
  cbv zeta.
  set (h := failing_at 7 (pg_dao "public")).
  set (w := (0, Scenario.created)).
  set (calls := update_sequence Scenario.ds "fda_events"
                  ["https://open.fda.gov/a.zip"] true Scenario.T1
                  Scenario.T1 "etl").
  set (wk := final_state (interp h (run_sequence (take 7 calls)) w)).
  destruct (DataSource_update_first_failure_ends Scenario.ds "fda_events" 2
              ["https://open.fda.gov/a.zip"] true Scenario.T1 Scenario.T1
              "etl" _ h w wk (fst (h Commit wk)) 7 Commit
              (OperationalError "simulated failure"))
    as (Hout & Hst & _ & _ & _ & _ & Hcl);
    [reflexivity | reflexivity | by vm_compute | by vm_compute |].
  split; [exact Hout|]. split; [apply Hcl; lia|].
  fold h w. rewrite Hst. by vm_compute.
Defined.

(** X2: whatever the data-access object replies, a call that
    [DataSource.update] issues is connect, begin, commit or close, or it
    is an update of the method's own table, keyed on [name] with the
    name given, of one of the five columns uris, has_changed,
    source_updated, updated and updated_by.  The method never asks for a
    rollback, an insert, a read or a delete, and never writes the
    [name] or the [version] column. *)
Theorem DataSource_update_issues_only (self : DataSource.t) (name : string)
    (version : Z) (uris : list string) (has_changed : bool)
    (source_updated updated : Z) (updated_by : string) (c : dao_call) :
  issues (DataSource.update self name version uris has_changed
            source_updated updated updated_by) c ->
  (c ∈ [Connect; Begin; Commit; Close] \/
   exists (column : string) (v : value),
     c = Update (DataSource._table self) column v "name" (VStr name)
           (Some (DataSource._schema self)) /\
     column ∈ updated_columns /\
     (column, v) ∈ [("uris", VList uris); ("has_changed", VBool has_changed);
                    ("source_updated", VTime source_updated);
                    ("updated", VTime updated);
                    ("updated_by", VStr updated_by)]) /\
  c ≠ Rollback /\
  (forall t cols vals s, c ≠ Create t cols vals s) /\
  (forall t k kv s, c ≠ Read t k kv s) /\
  (forall t k kv s, c ≠ Delete t k kv s) /\
  (forall t v k kv s, c ≠ Update t "name" v k kv s) /\
  (forall t v k kv s, c ≠ Update t "version" v k kv s).
Proof.
  rewrite update_is_sequence, issues_run_sequence.
  unfold update_sequence, updated_columns. intros Hc.
  rewrite !elem_of_cons, elem_of_nil in Hc.
  destruct_or!; subst c; try done.
  all: split; [|done].
  all: first
    [ left; rewrite !elem_of_cons; by intuition
    | right; eexists _, _; split; [reflexivity|];
      rewrite !elem_of_cons; by intuition ].
Qed.

Lemma DataSource_update_issues_only_witness :
  let c :=
    Update "datasource" "updated" (VTime Scenario.T1)
      "name" (VStr "fda_events") (Some "public") in
  c ∈ trace (interp (pg_dao "public")
               (DataSource.update Scenario.ds "fda_events" 2
                  ["https://open.fda.gov/a.zip"] true Scenario.T1
                  Scenario.T1 "etl") Scenario.created) /\
  (forall t v k kv s, c ≠ Update t "version" v k kv s).
Proof.
  cbv zeta.
  assert (Update "datasource" "updated" (VTime Scenario.T1)
            "name" (VStr "fda_events") (Some "public")
          ∈ trace (interp (pg_dao "public")
                     (DataSource.update Scenario.ds "fda_events" 2
                        ["https://open.fda.gov/a.zip"] true Scenario.T1
                        Scenario.T1 "etl") Scenario.created)) as Hin.
  { change (trace _) with
      (update_sequence Scenario.ds "fda_events"
         ["https://open.fda.gov/a.zip"] true Scenario.T1 Scenario.T1 "etl").
    unfold update_sequence. rewrite !elem_of_cons. tauto. }
  split; [exact Hin|].
  apply (DataSource_update_issues_only Scenario.ds "fda_events" 2
           ["https://open.fda.gov/a.zip"] true Scenario.T1 Scenario.T1 "etl").
  exact (trace_issues _ _ _ _ Hin).
Defined.

(** X3: each method other than [DataSource.update] makes exactly one
    call on the data-access object, and so none of connect, begin,
    commit, rollback and close; it ends in the state that call left; an
    exception of the call is the outcome of the method, unchanged; and
    when the call returns, [read] hands back its reply as it is, while
    [create] and [delete] return [None]. *)
Theorem single_call_methods (W : Type) (h : handler W) (w : W)
    (ds : DataSource.t) (dse : DataSourceEvent.t) :
  let one_call (A : Type) (method : prog A) (c : dao_call)
      (returned : reply -> A) : Prop :=
    trace (interp h method w) = [c] /\
    final_state (interp h method w) = fst (h c w) /\
    outcome (interp h method w) =
      match snd (h c w) with
      | Ok r => Ok (returned r)
      | Raise e => Raise e
      end in
  (forall a kw,
     one_call unit (DataSource.create ds a kw)
       (Create (DataSource._table ds)
          (DataSource.fixed_columns ++ map fst kw)
          (DataSource.fixed_values a ++ map snd kw)
          (Some (DataSource._schema ds)))
       (fun _ => tt)) /\
  (forall n,
     one_call reply (DataSource.read ds (Some n))
       (Read (DataSource._table ds) (Some "name") (Some (VStr n))
          (Some (DataSource._schema ds)))
       (fun r => r)) /\
  one_call reply (DataSource.read ds None)
    (Read (DataSource._table ds) None None (Some (DataSource._schema ds)))
    (fun r => r) /\
  (forall n,
     one_call unit (DataSource.delete ds n)
       (Delete (DataSource._table ds) "name" (VStr n)
          (Some (DataSource._schema ds)))
       (fun _ => tt)) /\
  (forall kw,
     one_call unit (DataSourceEvent.create dse kw)
       (Create (DataSourceEvent._table dse) (map fst kw) (map snd kw)
          (Some (DataSourceEvent._schema dse)))
       (fun _ => tt)) /\
  (forall n,
     one_call reply (DataSourceEvent.read dse (Some n))
       (Read (DataSourceEvent._table dse) (Some "name") (Some (VStr n)) None)
       (fun r => r)) /\
  one_call reply (DataSourceEvent.read dse None)
    (Read (DataSourceEvent._table dse) None None None)
    (fun r => r) /\
  (forall id,
     one_call unit (DataSourceEvent.delete dse id)
       (Delete (DataSourceEvent._table dse) "id" (opt_int id) None)
       (fun _ => tt)).
Proof.
  cbv zeta.
  assert (forall (A : Type) (c : dao_call) (f : reply -> A),
            trace (interp h (Call c (fun r => Ret (f r))) w) = [c] /\
            final_state (interp h (Call c (fun r => Ret (f r))) w) =
              fst (h c w) /\
            outcome (interp h (Call c (fun r => Ret (f r))) w) =
              match snd (h c w) with
              | Ok r => Ok (f r)
              | Raise e => Raise e
              end) as Hone.
  { intros A c f. cbn [interp]. by destruct (h c w) as [w' [r|e]]. }
  refine (conj _ (conj _ (conj _ (conj _ (conj _ (conj _ (conj _ _))))))).
  - intros a kw. rewrite DataSource_create_call.
    apply (Hone unit _ (fun _ => tt)).
  - intros n. apply (Hone reply _ (fun r => r)).
  - apply (Hone reply _ (fun r => r)).
  - intros n. apply (Hone unit _ (fun _ => tt)).
  - intros kw. apply (Hone unit _ (fun _ => tt)).
  - intros n. apply (Hone reply _ (fun r => r)).
  - apply (Hone reply _ (fun r => r)).
  - intros id. apply (Hone unit _ (fun _ => tt)).
Qed.

(** ** On the storage back end: [create] *)

Lemma existsb_matches_false (k : string) (v : value) (rows : list row) :
  (forall r : row, r ∈ rows -> r !! k ≠ Some v) ->
  existsb (matches k v) rows = false.
Proof.
  intros Hnone. induction rows as [|r rows IH]; [done|].
  cbn [existsb]. rewrite IH by (intros r' Hr'; apply Hnone; by right).
  rewrite orb_false_r. apply not_true_is_false. rewrite matches_spec.
  apply Hnone. by left.
Qed.

Lemma existsb_matches_true (k : string) (v : value) (rows : list row)
    (r : row) :
  r ∈ rows -> r !! k = Some v -> existsb (matches k v) rows = true.
Proof.
  intros Hin Hr. apply existsb_exists. exists r.
  split; [by apply list_elem_of_In|by apply matches_spec].
Qed.

(** An insert that the unique key lets through, and one it rejects. *)
Lemma pg_dao_create_ok (dflt : string) (t : string) (cols : list string)
    (vals : list value) (s : string) (st : pg_state) :
  violates_key t (list_to_map (zip cols vals)) (rows_of (tables st) s t) =
    false ->
  pg_dao dflt (Create t cols vals (Some s)) st =
  (set_tables st
     (<[(s, t) := rows_of (tables st) s t ++ [list_to_map (zip cols vals)]]>
        (tables st)),
   Ok RNone).
Proof.
  intros Hkey. unfold pg_dao. cbn [default from_option id]. by rewrite Hkey.
Qed.

Lemma pg_dao_create_rejected (dflt : string) (t : string)
    (cols : list string) (vals : list value) (s : string) (st : pg_state) :
  violates_key t (list_to_map (zip cols vals)) (rows_of (tables st) s t) =
    true ->
  pg_dao dflt (Create t cols vals (Some s)) st =
  (st, Raise (IntegrityError "duplicate key")).
Proof.
  intros Hkey. unfold pg_dao. cbn [default from_option id]. by rewrite Hkey.
Qed.

(** The row that [DataSource.create] asks to insert. *)
Lemma created_row_name (a : DataSource.create_args) (kw : kwargs) :
  (list_to_map (zip (DataSource.fixed_columns ++ map fst kw)
                    (DataSource.fixed_values a ++ map snd kw)) : row)
    !! "name" = Some (VStr (DataSource.name a)).
Proof. cbn. apply lookup_insert_eq. Qed.

Lemma created_pairs (a : DataSource.create_args) (kw : kwargs) :
  zip (DataSource.fixed_columns ++ map fst kw)
      (DataSource.fixed_values a ++ map snd kw) =
  zip DataSource.fixed_columns (DataSource.fixed_values a) ++ kw.
Proof.
  rewrite zip_with_app by reflexivity. f_equal. apply zip_map_fst_snd.
Qed.

Lemma created_pairs_columns (a : DataSource.create_args) (kw : kwargs) :
  (zip DataSource.fixed_columns (DataSource.fixed_values a) ++ kw).*1 =
  DataSource.fixed_columns ++ map fst kw.
Proof. rewrite fmap_app. by rewrite <- map_fst_fmap. Qed.

(** The insert goes through when no row of the table has the name. *)
Lemma pg_create_fresh (dflt : string) (self : DataSource.t)
    (a : DataSource.create_args) (kw : kwargs) (st : pg_state) :
  (forall r : row,
     r ∈ rows_of (tables st) (DataSource._schema self)
           (DataSource._table self) ->
     r !! "name" ≠ Some (VStr (DataSource.name a))) ->
  interp (pg_dao dflt) (DataSource.create self a kw) st =
  (set_tables st
     (<[(DataSource._schema self, DataSource._table self) :=
          rows_of (tables st) (DataSource._schema self)
            (DataSource._table self) ++
          [list_to_map
             (zip DataSource.fixed_columns (DataSource.fixed_values a)
              ++ kw)]]> (tables st)),
   [Create (DataSource._table self)
      (DataSource.fixed_columns ++ map fst kw)
      (DataSource.fixed_values a ++ map snd kw)
      (Some (DataSource._schema self))],
   Ok tt).
Proof.
  intros Hfresh. rewrite DataSource_create_call.
  cbn [interp]. rewrite pg_dao_create_ok.
  - by rewrite created_pairs.
  - unfold violates_key, unique_key. case_decide; [|done].
    rewrite created_row_name. by apply existsb_matches_false.
Qed.

(** X4: when no row of the table has the name and the column names are
    distinct (the extra keywords are a dict and none of them is a
    parameter name), [DataSource.create] returns without an exception,
    adds one row after the rows the table had, and [read(name)] then
    returns that one row: its columns are exactly the 17 fixed
    attributes and the extra keywords, each with the value passed. *)
Theorem DataSource_create_then_read (dflt : string) (self : DataSource.t)
    (a : DataSource.create_args) (kw : kwargs) (st : pg_state) :
  let schema := DataSource._schema self in
  let table := DataSource._table self in
  let rows := rows_of (tables st) schema table in
  let pairs :=
    zip DataSource.fixed_columns (DataSource.fixed_values a) ++ kw in
  let o := interp (pg_dao dflt) (DataSource.create self a kw) st in
  NoDup (DataSource.fixed_columns ++ map fst kw) ->
  (forall r : row, r ∈ rows -> r !! "name" ≠ Some (VStr (DataSource.name a))) ->
  outcome o = Ok tt /\
  exists r : row,
    rows_of (tables (final_state o)) schema table = rows ++ [r] /\
    outcome (interp (pg_dao dflt)
               (DataSource.read self (Some (DataSource.name a)))
               (final_state o)) = Ok (RFrame [r]) /\
    dom r = list_to_set (DataSource.fixed_columns ++ map fst kw) /\
    (forall (k : string) (v : value), r !! k = Some v <-> (k, v) ∈ pairs).
Proof.
  cbv zeta. intros Hnodup Hfresh.
  rewrite (pg_create_fresh dflt self a kw st Hfresh).
  unfold outcome, final_state. cbn [fst snd tables set_tables].
  split; [done|].
  exists (list_to_map
            (zip DataSource.fixed_columns (DataSource.fixed_values a) ++ kw)).
  rewrite <- (created_pairs_columns a kw) in Hnodup.
  split; [by rewrite rows_of_insert_eq|]. split.
  { rewrite pg_read_name. cbn [snd tables set_tables].
    rewrite rows_of_insert_eq, filter_app.
    assert (filter (matches "name" (VStr (DataSource.name a)))
              (rows_of (tables st) (DataSource._schema self)
                 (DataSource._table self)) = []) as ->.
    { apply elem_of_nil_inv. intros r.
      rewrite elem_of_filter_matches. intros [Hin Hr].
      by apply (Hfresh r). }
    rewrite filter_cons, filter_nil.
    rewrite <- created_pairs.
    pose proof (created_row_name a kw) as Hname.
    apply matches_spec in Hname. rewrite Hname. done. }
  split.
  { by rewrite dom_list_to_map_L, (created_pairs_columns a kw). }
  intros k v. symmetry. by apply elem_of_list_to_map.
Qed.

Lemma DataSource_create_then_read_witness :
  exists r : row,
    Scenario.read_back Scenario.created = Ok (RFrame [r]) /\
    r !! "version" = Some (VInt 1) /\
    r !! "created_by" = Some (VStr "etl").
Proof.
  destruct (DataSource_create_then_read "public" Scenario.ds
              Scenario.fda_events [] Scenario.empty_db)
    as (_ & r & _ & Hread & _ & Hr).
  - apply (bool_decide_unpack _). by vm_compute.
  - intros r Hr. by vm_compute in Hr; apply elem_of_nil in Hr.
  - exists r. split; [exact Hread|].
    split; apply Hr; cbn; rewrite !elem_of_cons; by intuition.
Defined.

(** ** On the storage back end: [update] and [delete] *)

(** A row keeps its name through [update_row], whatever name is asked. *)
Lemma update_row_name (uris : list string) (has_changed : bool)
    (source_updated updated : Z) (updated_by : string) (r : row) :
  update_row uris has_changed source_updated updated updated_by r !! "name" =
  r !! "name".
Proof. unfold update_row. by rewrite !lookup_insert_ne by done. Qed.

(** A second [update_row] overwrites all that the first one wrote. *)
Lemma update_row_overwrites (uris1 uris2 : list string)
    (has_changed1 has_changed2 : bool)
    (source_updated1 source_updated2 updated1 updated2 : Z)
    (updated_by1 updated_by2 : string) (r : row) :
  update_row uris2 has_changed2 source_updated2 updated2 updated_by2
    (update_row uris1 has_changed1 source_updated1 updated1 updated_by1 r) =
  update_row uris2 has_changed2 source_updated2 updated2 updated_by2 r.
Proof.
  apply map_eq. intros c. unfold update_row.
  rewrite !lookup_insert. by repeat case_decide.
Qed.

(** Reading another name sees through the rewriting of the rows that
    [update] matched. *)
Lemma filter_other_name_updated (name n' : string) (uris : list string)
    (has_changed : bool) (source_updated updated : Z) (updated_by : string)
    (rows : list row) :
  filter (matches "name" (VStr n'))
    (map (fun r => if matches "name" (VStr name) r
                   then update_row uris has_changed source_updated updated
                          updated_by r
                   else r) rows) =
  map (fun r => if matches "name" (VStr name) r
                then update_row uris has_changed source_updated updated
                       updated_by r
                else r)
    (filter (matches "name" (VStr n')) rows).
Proof.
  induction rows as [|r rows IH]; [done|].
  cbn [map]. rewrite !filter_cons.
  assert (matches "name" (VStr n')
            (if matches "name" (VStr name) r
             then update_row uris has_changed source_updated updated
                    updated_by r
             else r) = matches "name" (VStr n') r) as ->.
  { destruct (matches "name" (VStr name) r); [|done].
    unfold matches. by rewrite update_row_name. }
  destruct (matches "name" (VStr n') r); cbn; by rewrite IH.
Qed.

Lemma map_unmatched (name : string) (f : row -> row) (rows : list row) :
  (forall r : row, r ∈ rows -> r !! "name" ≠ Some (VStr name)) ->
  map (fun r => if matches "name" (VStr name) r then f r else r) rows = rows.
Proof.
  intros Hnone. induction rows as [|r rows IH]; [done|].
  cbn [map]. rewrite IH by (intros r' Hr'; apply Hnone; by right).
  assert (matches "name" (VStr name) r = false) as ->; [|done].
  apply not_true_is_false. rewrite matches_spec. apply Hnone. by left.
Qed.

(** X5: [DataSource.update] makes no existence check and returns without
    an exception whether or not a row has the name.  It adds and removes
    no row; what [read] returns for any other name, and every other
    table, is as before; and when no row has the name, the table is as
    before. *)
Theorem DataSource_update_other_rows (dflt : string) (self : DataSource.t)
    (name : string) (version : Z) (uris : list string) (has_changed : bool)
    (source_updated updated : Z) (updated_by : string) (st : pg_state) :
  let schema := DataSource._schema self in
  let table := DataSource._table self in
  let o :=
    interp (pg_dao dflt)
      (DataSource.update self name version uris has_changed source_updated
         updated updated_by) st in
  let rows := rows_of (tables st) schema table in
  let rows' := rows_of (tables (final_state o)) schema table in
  outcome o = Ok tt /\
  length rows' = length rows /\
  (forall n' : string,
     n' ≠ name ->
     outcome (interp (pg_dao dflt) (DataSource.read self (Some n'))
                (final_state o)) =
     outcome (interp (pg_dao dflt) (DataSource.read self (Some n')) st)) /\
  (forall s' t' : string,
     (schema, table) ≠ (s', t') ->
     rows_of (tables (final_state o)) s' t' = rows_of (tables st) s' t') /\
  ((forall r : row, r ∈ rows -> r !! "name" ≠ Some (VStr name)) ->
   rows' = rows).
Proof.
  cbv zeta. rewrite pg_update_run.
  unfold outcome, final_state. cbn [fst snd tables].
  rewrite rows_of_insert_eq.
  split; [done|]. split; [by rewrite length_map|]. split.
  { intros n' Hne. rewrite !pg_read_name. cbn [snd tables].
    rewrite rows_of_insert_eq, filter_other_name_updated.
    do 2 f_equal. apply map_unmatched. intros r.
    rewrite elem_of_filter_matches. intros [_ Hr]. congruence. }
  split; [intros s' t' Hne; by apply rows_of_insert_ne|].
  apply map_unmatched.
Qed.

Lemma DataSource_update_other_rows_witness :
  let o :=
    interp (pg_dao "public")
      (DataSource.update Scenario.ds "aact" 3 [] true Scenario.T1
         Scenario.T1 "etl") Scenario.created in
  outcome o = Ok tt /\
  rows_of (tables (final_state o)) "public" "datasource" =
  rows_of (tables Scenario.created) "public" "datasource".
Proof.
  cbv zeta.
  destruct (DataSource_update_other_rows "public" Scenario.ds "aact" 3 []
              true Scenario.T1 Scenario.T1 "etl" Scenario.created)
    as (Hok & _ & _ & _ & Hnone).
  split; [exact Hok|]. apply Hnone. intros r Hr.
  assert (r !! "name" = Some (VStr "fda_events")) as ->; [|done].
  vm_compute in Hr. apply list_elem_of_singleton in Hr. by subst r.
Defined.

(** X6: a second [DataSource.update] under the same name overwrites all
    that the first one wrote: the back end after the two is the back end
    after the second alone.  In particular the method is idempotent. *)
Theorem DataSource_update_last_wins (dflt : string) (self : DataSource.t)
    (name : string) (version1 version2 : Z) (uris1 uris2 : list string)
    (has_changed1 has_changed2 : bool)
    (source_updated1 source_updated2 updated1 updated2 : Z)
    (updated_by1 updated_by2 : string) (st : pg_state) :
  let first :=
    DataSource.update self name version1 uris1 has_changed1 source_updated1
      updated1 updated_by1 in
  let second :=
    DataSource.update self name version2 uris2 has_changed2 source_updated2
      updated2 updated_by2 in
  final_state
    (interp (pg_dao dflt) second
       (final_state (interp (pg_dao dflt) first st))) =
  final_state (interp (pg_dao dflt) second st).
Proof.
  cbv zeta. rewrite !pg_update_run. unfold final_state. cbn [fst tables].
  rewrite rows_of_insert_eq, insert_insert_eq, map_map.
  do 2 f_equal. apply map_ext. intros r.
  destruct (matches "name" (VStr name) r) eqn:Hm; [|by rewrite Hm].
  by rewrite update_row_matches, Hm, update_row_overwrites.
Qed.

(** The run of [DataSource.delete] on the storage back end. *)
Lemma pg_delete_run (dflt : string) (self : DataSource.t) (name : string)
    (st : pg_state) :
  interp (pg_dao dflt) (DataSource.delete self name) st =
  (set_tables st
     (<[(DataSource._schema self, DataSource._table self) :=
          filter (fun r => negb (matches "name" (VStr name) r))
            (rows_of (tables st) (DataSource._schema self)
               (DataSource._table self))]> (tables st)),
   [Delete (DataSource._table self) "name" (VStr name)
      (Some (DataSource._schema self))],
   Ok tt).
Proof. reflexivity. Qed.

Lemma filter_matches_after_delete (name n' : string) (rows : list row) :
  filter (matches "name" (VStr n'))
    (filter (fun r => negb (matches "name" (VStr name) r)) rows) =
  if decide (n' = name) then []
  else filter (matches "name" (VStr n')) rows.
Proof.
  induction rows as [|r rows IH]; [by case_decide|].
  destruct (matches "name" (VStr name) r) eqn:Hm.
  - rewrite (filter_cons_False (fun r => negb (matches "name" (VStr name) r)))
      by (cbn beta; rewrite Hm; by intros []).
    rewrite IH. case_decide; [done|].
    rewrite filter_cons_False; [done|].
    intros Hn%Is_true_true. apply matches_spec in Hn, Hm. congruence.
  - rewrite (filter_cons_True (fun r => negb (matches "name" (VStr name) r)))
      by (cbn beta; by rewrite Hm).
    destruct (matches "name" (VStr n') r) eqn:Hn.
    + rewrite !filter_cons_True by (by rewrite Hn).
      rewrite IH. case_decide; [|done]. subst n'. congruence.
    + rewrite !filter_cons_False by (rewrite Hn; by intros []). by rewrite IH.
Qed.

(** X7: after [DataSource.delete(name)], [read(name)] returns no row and
    [read] of any other name returns what it returned before; deleting
    the same name again changes nothing. *)
Theorem DataSource_delete_then_read (dflt : string) (self : DataSource.t)
    (name : string) (st : pg_state) :
  let st' :=
    final_state (interp (pg_dao dflt) (DataSource.delete self name) st) in
  outcome (interp (pg_dao dflt) (DataSource.read self (Some name)) st') =
    Ok (RFrame []) /\
  (forall n' : string,
     n' ≠ name ->
     outcome (interp (pg_dao dflt) (DataSource.read self (Some n')) st') =
     outcome (interp (pg_dao dflt) (DataSource.read self (Some n')) st)) /\
  final_state (interp (pg_dao dflt) (DataSource.delete self name) st') = st'.
Proof.
  cbv zeta. rewrite !pg_delete_run. unfold final_state.
  cbn [fst tables set_tables connected snapshot]. split.
  { rewrite pg_read_name. unfold outcome. cbn [snd tables set_tables].
    rewrite rows_of_insert_eq, filter_matches_after_delete.
    by rewrite decide_True. }
  split.
  { intros n' Hne. rewrite !pg_read_name. unfold outcome. cbn [snd tables set_tables].
    rewrite rows_of_insert_eq, filter_matches_after_delete.
    by rewrite decide_False. }
  rewrite rows_of_insert_eq, insert_insert_eq. do 2 f_equal.
  rewrite list_filter_filter. apply list_filter_iff. intros r. tauto.
Qed.

(** ** On the storage back end: a failure in the middle of [update] *)

Lemma set_columns_cons (c : string) (v : value)
    (writes : list (string * value)) (r : row) :
  set_columns ((c, v) :: writes) r = set_columns writes (<[c := v]> r).
Proof. reflexivity. Qed.

Lemma set_columns_matches (writes : list (string * value)) (name : string)
    (r : row) :
  "name" ∉ writes.*1 ->
  matches "name" (VStr name) (set_columns writes r) =
  matches "name" (VStr name) r.
Proof.
  revert r. induction writes as [|[c v] writes IH]; intros r Hnot; [done|].
  rewrite fmap_cons in Hnot. apply not_elem_of_cons in Hnot as [Hne Hnot].
  rewrite set_columns_cons, IH by done. by apply matches_insert_ne.
Qed.

Lemma set_columns_other (writes : list (string * value)) (r : row)
    (c : string) :
  c ∉ writes.*1 -> set_columns writes r !! c = r !! c.
Proof.
  revert r. induction writes as [|[c' v] writes IH]; intros r Hnot; [done|].
  rewrite fmap_cons in Hnot. apply not_elem_of_cons in Hnot as [Hne Hnot].
  rewrite set_columns_cons, IH by done. by apply lookup_insert_ne.
Qed.

Lemma set_columns_written (writes : list (string * value)) (r : row)
    (c : string) (v : value) :
  NoDup writes.*1 -> (c, v) ∈ writes -> set_columns writes r !! c = Some v.
Proof.
  revert r. induction writes as [|[c' v'] writes IH]; intros r Hnodup Hin.
  - by apply elem_of_nil in Hin.
  - rewrite fmap_cons in Hnodup. apply NoDup_cons in Hnodup as [Hnot Hnodup].
    rewrite set_columns_cons.
    apply elem_of_cons in Hin as [[= <- <-]|Hin].
    + rewrite set_columns_other by done. apply lookup_insert_eq.
    + by apply IH.
Qed.

Lemma NoDup_fmap_take_five (k : nat) (uris : list string)
    (has_changed : bool) (source_updated updated : Z) (updated_by : string) :
  NoDup (take (k - 2)
           (column_updates uris has_changed source_updated updated
              updated_by)).*1.
Proof.
  rewrite fmap_take. eapply sublist_NoDup; [|apply sublist_take].
  apply (bool_decide_unpack _). by vm_compute.
Qed.

(** A data-access object that fails at call [n] behaves as the one it
    wraps on a sequence that ends before call [n]. *)
Lemma failing_at_before {W : Type} (h : handler W) (n : nat)
    (cs : list dao_call) (i : nat) (w : W) :
  i + length cs <= n ->
  interp (failing_at n h) (run_sequence cs) (i, w) =
  ((i + length (trace (interp h (run_sequence cs) w)),
    final_state (interp h (run_sequence cs) w)),
   trace (interp h (run_sequence cs) w),
   outcome (interp h (run_sequence cs) w)).
Proof.
  revert i w. induction cs as [|c cs IH]; intros i w Hlen.
  - cbn. by rewrite Nat.add_0_r.
  - cbn [length] in Hlen. cbn [run_sequence interp].
    unfold failing_at at 1. rewrite decide_False by lia.
    destruct (h c w) as [w' [r|e]].
    + rewrite (IH (S i) w') by lia.
      destruct (interp h (run_sequence cs) w') as [[w'' tr] res].
      unfold trace, final_state, outcome. cbn [fst snd length].
      by rewrite Nat.add_succ_r.
    + unfold trace, final_state, outcome. cbn [fst snd length].
      by rewrite Nat.add_1_r.
Qed.

(** The run of a sequence whose call [k] is the simulated failure. *)
Lemma failing_at_run_sequence {W : Type} (h : handler W)
    (cs : list dao_call) (k : nat) (c : dao_call) (w : W) :
  cs !! k = Some c ->
  outcome (interp h (run_sequence (take k cs)) w) = Ok tt ->
  interp (failing_at k h) (run_sequence cs) (0, w) =
  ((S k, final_state (interp h (run_sequence (take k cs)) w)),
   take (S k) cs,
   Raise (OperationalError "simulated failure")).
Proof.
  intros Hc Hok.
  pose proof (run_sequence_ok h _ w Hok) as Htr.
  assert (length (take k cs) = k) as Hlen.
  { apply length_take_le. apply lookup_lt_Some in Hc. lia. }
  apply (run_sequence_fail_at (failing_at k h) cs k c (0, w)
           (k, final_state (interp h (run_sequence (take k cs)) w))).
  - done.
  - rewrite failing_at_before by (rewrite Hlen; lia).
    unfold final_state at 1. cbn [fst snd]. by rewrite Htr, Hlen.
  - rewrite failing_at_before by (rewrite Hlen; lia). done.
  - unfold failing_at. by rewrite decide_True.
Qed.

(** X8: when one of the five column updates fails, the column updates
    made before it stay applied to the rows of that name: these rows
    hold the new values in the columns already written and the old ones
    in the others, nothing restores the tables as they were when the
    transaction began, and the exception is the outcome. *)
Theorem DataSource_update_failure_partial_state (dflt : string)
    (self : DataSource.t) (name : string) (version : Z) (uris : list string)
    (has_changed : bool) (source_updated updated : Z) (updated_by : string)
    (st : pg_state) (k : nat) :
  let schema := DataSource._schema self in
  let table := DataSource._table self in
  let o :=
    interp (failing_at k (pg_dao dflt))
      (DataSource.update self name version uris has_changed source_updated
         updated updated_by) (0, st) in
  let written :=
    take (k - 2)
      (column_updates uris has_changed source_updated updated updated_by) in
  let st' := snd (final_state o) in
  2 <= k < 7 ->
  outcome o = Raise (OperationalError "simulated failure") /\
  rows_of (tables st') schema table =
    map (fun r => if matches "name" (VStr name) r
                  then set_columns written r else r)
      (rows_of (tables st) schema table) /\
  (forall (r : row) (c : string) (v : value),
     (c, v) ∈ written -> set_columns written r !! c = Some v) /\
  (forall (r : row) (c : string),
     c ∉ written.*1 -> set_columns written r !! c = r !! c) /\
  snapshot st' = Some (tables st).
Proof.
  cbv zeta. intros Hk.
  assert (k = 2 \/ k = 3 \/ k = 4 \/ k = 5 \/ k = 6) as Hcases by lia.
  rewrite update_is_sequence.
  assert (exists c,
            update_sequence self name uris has_changed source_updated
              updated updated_by !! k = Some c) as [c Hc].
  { apply lookup_lt_is_Some. cbn. lia. }
  rewrite (failing_at_run_sequence (pg_dao dflt) _ k c st Hc)
    by (destruct Hcases as [-> | [-> | [-> | [-> | ->]]]]; reflexivity).
  unfold outcome, final_state. cbn [fst snd].
  split; [done|].
  split; [|split; [|split]].
  - unfold update_sequence, column_updates.
    destruct Hcases as [-> | Hcases].
    { cbn [take run_sequence interp pg_dao tables Nat.sub fst snd].
      unfold final_state. cbn [fst tables].
      rewrite <- (map_id (rows_of (tables st) _ _)) at 1.
      apply map_ext. intros r. by destruct (matches "name" (VStr name) r). }
    destruct Hcases as [-> | [-> | [-> | ->]]];
      cbn [take run_sequence interp pg_dao default from_option id set_tables
           tables connected snapshot fst snd Nat.sub];
      rewrite ?rows_of_insert_eq, ?map_map;
      apply map_ext; intros r;
      (destruct (matches "name" (VStr name) r) eqn:Hm;
       [ rewrite ?set_column_match by solve_matches; reflexivity
       | by rewrite !set_column_no_match by solve_matches ]).
  - intros r c' v. apply set_columns_written.
    apply (NoDup_fmap_take_five k).
  - intros r c'. apply set_columns_other.
  - destruct Hcases as [-> | [-> | [-> | [-> | ->]]]]; reflexivity.
Qed.

Lemma DataSource_update_failure_partial_state_witness :
  let o :=
    interp (failing_at 4 (pg_dao "public"))
      (DataSource.update Scenario.ds "fda_events" 2
         ["https://open.fda.gov/a.zip"] true Scenario.T1 Scenario.T1 "etl")
      (0, Scenario.created) in
  outcome o = Raise (OperationalError "simulated failure") /\
  map (fun r : row => (r !! "has_changed", r !! "source_updated"))
    (rows_of (tables (snd (final_state o)))
       (DataSource._schema Scenario.ds) (DataSource._table Scenario.ds)) =
  [(Some (VBool true), Some (VTime Scenario.T0))].
Proof.
  cbv zeta.
  destruct (DataSource_update_failure_partial_state "public" Scenario.ds
              "fda_events" 2 ["https://open.fda.gov/a.zip"] true Scenario.T1
              Scenario.T1 "etl" Scenario.created 4 ltac:(lia))
    as (Hout & Hrows & _).
  split; [exact Hout|]. rewrite Hrows. by vm_compute.
Defined.

(** ** On the storage back end: [create], then [update], then [read] *)

Lemma filter_fresh_append (name : string) (rows : list row) (new : row) :
  (forall r : row, r ∈ rows -> r !! "name" ≠ Some (VStr name)) ->
  new !! "name" = Some (VStr name) ->
  filter (matches "name" (VStr name)) (rows ++ [new]) = [new].
Proof.
  intros Hfresh Hnew. rewrite filter_app.
  assert (filter (matches "name" (VStr name)) rows = []) as ->.
  { apply elem_of_nil_inv. intros r.
    rewrite elem_of_filter_matches. intros [Hin Hr]. by apply (Hfresh r). }
  rewrite filter_cons_True, filter_nil; [done|].
  apply Is_true_true. by apply matches_spec.
Qed.

(** X9: a row created under a fresh name and then updated under that
    name is read back as one row: the five columns of [update] hold the
    values passed to [update], and every other column holds what
    [create] wrote.  In particular [version] is the version passed to
    [create], whatever version [update] was given. *)
Theorem DataSource_create_update_read (dflt : string) (self : DataSource.t)
    (a : DataSource.create_args) (kw : kwargs) (version : Z)
    (uris : list string) (has_changed : bool) (source_updated updated : Z)
    (updated_by : string) (st : pg_state) :
  let rows :=
    rows_of (tables st) (DataSource._schema self) (DataSource._table self) in
  let pairs :=
    zip DataSource.fixed_columns (DataSource.fixed_values a) ++ kw in
  let st1 :=
    final_state (interp (pg_dao dflt) (DataSource.create self a kw) st) in
  let st2 :=
    final_state
      (interp (pg_dao dflt)
         (DataSource.update self (DataSource.name a) version uris
            has_changed source_updated updated updated_by) st1) in
  NoDup (DataSource.fixed_columns ++ map fst kw) ->
  (forall r : row, r ∈ rows -> r !! "name" ≠ Some (VStr (DataSource.name a))) ->
  exists r : row,
    outcome (interp (pg_dao dflt)
               (DataSource.read self (Some (DataSource.name a))) st2) =
      Ok (RFrame [r]) /\
    r !! "uris" = Some (VList uris) /\
    r !! "has_changed" = Some (VBool has_changed) /\
    r !! "source_updated" = Some (VTime source_updated) /\
    r !! "updated" = Some (VTime updated) /\
    r !! "updated_by" = Some (VStr updated_by) /\
    (forall (c : string) (v : value),
       c ∉ updated_columns -> r !! c = Some v <-> (c, v) ∈ pairs) /\
    r !! "name" = Some (VStr (DataSource.name a)) /\
    r !! "version" = Some (VInt (DataSource.version a)).
Proof.
  cbv zeta. intros Hnodup Hfresh.
  rewrite <- (created_pairs_columns a kw) in Hnodup.
  set (new := (list_to_map
                 (zip DataSource.fixed_columns (DataSource.fixed_values a)
                  ++ kw) : row)).
  assert (forall (c : string) (v : value),
            new !! c = Some v <->
            (c, v) ∈ zip DataSource.fixed_columns (DataSource.fixed_values a)
                     ++ kw) as Hnew.
  { intros c v. symmetry. by apply elem_of_list_to_map. }
  exists (update_row uris has_changed source_updated updated updated_by new).
  split.
  { rewrite read_after_update.
    rewrite (pg_create_fresh dflt self a kw st Hfresh).
    unfold final_state. cbn [fst tables set_tables].
    rewrite rows_of_insert_eq, filter_fresh_append; [done|done|].
    unfold new. rewrite <- created_pairs. apply created_row_name. }
  pose proof (update_row_written uris has_changed source_updated updated
                updated_by new) as Hw. cbv zeta in Hw.
  destruct Hw as (? & ? & ? & ? & ?).
  repeat (split; [done|]).
  split; [intros c v Hc; by rewrite update_row_frame, Hnew|].
  split; (rewrite update_row_frame;
          [apply Hnew, elem_of_app; left; cbn; rewrite !elem_of_cons;
           by intuition
          |unfold updated_columns; rewrite !not_elem_of_cons;
           repeat split; try done; apply not_elem_of_nil]).
Qed.

Lemma DataSource_create_update_read_witness :
  exists r : row,
    Scenario.read_back Scenario.updated = Ok (RFrame [r]) /\
    r !! "has_changed" = Some (VBool true) /\
    r !! "version" = Some (VInt 1).
Proof.
  destruct (DataSource_create_update_read "public" Scenario.ds
              Scenario.fda_events [] 2 ["https://open.fda.gov/a.zip"] true
              Scenario.T1 Scenario.T1 "etl" Scenario.empty_db)
    as (r & Hread & _ & Hchanged & _ & _ & _ & _ & _ & Hversion).
  - apply (bool_decide_unpack _). by vm_compute.
  - intros r Hr. by vm_compute in Hr; apply elem_of_nil in Hr.
  - exists r. split; [exact Hread|]. by split.
Defined.

(** ** On the storage back end: [DataSourceEvent.delete] *)

Lemma filter_matches_comm (k1 k2 : string) (v1 v2 : value)
    (rows : list row) :
  filter (matches k1 v1) (filter (fun r => negb (matches k2 v2 r)) rows) =
  filter (fun r => negb (matches k2 v2 r)) (filter (matches k1 v1) rows).
Proof. rewrite !list_filter_filter. apply list_filter_iff. tauto. Qed.

(** The runs of [DataSourceEvent.delete] and [DataSourceEvent.read] on
    the storage back end, in the default schema. *)
Lemma pg_event_delete (dflt : string) (credentials : DBCredentials)
    (i : option Z) (st : pg_state) :
  interp (pg_dao dflt)
    (DataSourceEvent.delete (DataSourceEvent.__init__ credentials) i) st =
  (set_tables st
     (<[(dflt, "datasourceevent") :=
          filter (fun r => negb (matches "id" (opt_int i) r))
            (rows_of (tables st) dflt "datasourceevent")]> (tables st)),
   [Delete "datasourceevent" "id" (opt_int i) None],
   Ok tt).
Proof. reflexivity. Qed.

Lemma pg_event_read (dflt : string) (credentials : DBCredentials)
    (name : option string) (st : pg_state) :
  outcome
    (interp (pg_dao dflt)
       (DataSourceEvent.read (DataSourceEvent.__init__ credentials) name)
       st) =
  Ok (RFrame
        match name with
        | Some n =>
            filter (matches "name" (VStr n))
              (rows_of (tables st) dflt "datasourceevent")
        | None => rows_of (tables st) dflt "datasourceevent"
        end).
Proof. by destruct name. Qed.

(** X10: [DataSourceEvent.delete(id)] and [DataSourceEvent.read] both
    leave the schema to the data-access object, so they work on the same
    table: after [delete(id)], [read], with a name or without, returns
    the rows it returned before except those whose [id] column is the
    given id, which it never returns. *)
Theorem DataSourceEvent_delete_then_read (dflt : string)
    (credentials : DBCredentials) (id : Z) (name : option string)
    (st : pg_state) :
  let dse := DataSourceEvent.__init__ credentials in
  let st' :=
    final_state
      (interp (pg_dao dflt) (DataSourceEvent.delete dse (Some id)) st) in
  outcome (interp (pg_dao dflt) (DataSourceEvent.delete dse (Some id)) st) =
    Ok tt /\
  exists before after : list row,
    outcome (interp (pg_dao dflt) (DataSourceEvent.read dse name) st) =
      Ok (RFrame before) /\
    outcome (interp (pg_dao dflt) (DataSourceEvent.read dse name) st') =
      Ok (RFrame after) /\
    after = filter (fun r => negb (matches "id" (VInt id) r)) before /\
    (forall r : row, r ∈ after <-> r ∈ before /\ r !! "id" ≠ Some (VInt id)).
Proof.
  cbv zeta. rewrite pg_event_delete, !pg_event_read.
  unfold final_state, outcome. cbn [fst snd tables set_tables opt_int].
  rewrite rows_of_insert_eq.
  split; [done|]. eexists _, _. split; [reflexivity|].
  split; [reflexivity|]. split.
  - destruct name as [n|]; [apply filter_matches_comm|done].
  - intros r. destruct name as [n|].
    + rewrite filter_matches_comm. apply elem_of_filter_not_matches.
    + apply elem_of_filter_not_matches.
Qed.
